(** * Tracker: a shallow embedding of the price tracker

    The development follows the two programs of the repository:

    - [Scraper.py]: the crawl (retrying fetcher, sitemap discovery, page
      extraction, price normalisation) and the comparison of the fresh crawl
      with the stored CSV;
    - [app.py]: the dashboard, which normalises the link keys of the two
      stored snapshots, joins them and formats the price changes.

    Python [str] values are modelled by the list of the bytes of their UTF-8
    encoding ([list ascii]); the character classes [\d] and [\s] and the
    case mapping of [str.lower] are those of the ASCII range.  The HTML and
    CSV libraries (BeautifulSoup, pandas) are outside the repository: a parsed
    page is represented by the answers it gives to the queries the scraper
    makes, a data frame by the list of its rows. *)

From Stdlib Require Import Ascii String List Bool Arith ZArith QArith Lia.
From Stdlib Require Import Permutation Sorted.
Import ListNotations.

Close Scope Q_scope.
Open Scope nat_scope.

(* ================================================================== *)
(** * Python strings                                                   *)
(* ================================================================== *)

Definition str := list ascii.

(** A string literal of the source. *)
Definition py (x : string) : str := list_ascii_of_string x.

Definition str_eq_dec : forall a b : str, {a = b} + {a <> b} :=
  list_eq_dec ascii_dec.

Definition str_eqb (a b : str) : bool :=
  if str_eq_dec a b then true else false.

(** [\d] on the ASCII range.  On a [str] Python's [\d] also matches the
    decimal digits of other scripts, and [\s] and [strip] other white space:
    the definitions below are those of the code on text made of ASCII
    characters and rupee signs ([ascii_or_rupee]), which the statements
    that depend on it assume. *)
Definition is_digit (c : ascii) : bool :=
  let n := nat_of_ascii c in (48 <=? n) && (n <=? 57).

(** [\s], [str.isspace]: TAB LF VT FF CR, FS GS RS US and the space. *)
Definition is_space (c : ascii) : bool :=
  let n := nat_of_ascii c in
  ((9 <=? n) && (n <=? 13)) || ((28 <=? n) && (n <=? 32)).

Definition LF : ascii := ascii_of_nat 10.
Definition CR : ascii := ascii_of_nat 13.
Definition SP : ascii := " "%char.

(** The rupee sign U+20B9, three bytes in UTF-8. *)
Definition rupee : str := [ascii_of_nat 226; ascii_of_nat 130; ascii_of_nat 185].

Fixpoint prefixb (p x : str) : bool :=
  match p, x with
  | [], _ => true
  | a :: p', b :: x' => Ascii.eqb a b && prefixb p' x'
  | _ :: _, [] => false
  end.

(** [needle in haystack] *)
Fixpoint contains (needle x : str) : bool :=
  prefixb needle x ||
  match x with
  | [] => false
  | _ :: t => contains needle t
  end.

(** [x.replace(old, new)] for a non-empty [old]: occurrences are replaced
    from left to right and do not overlap.  [skip] counts the characters of
    the occurrence just replaced that are still to be passed over. *)
Fixpoint replace_from (old new : str) (skip : nat) (x : str) : str :=
  match x with
  | [] => []
  | c :: t =>
      match skip with
      | S k => replace_from old new k t
      | O =>
          if prefixb old x
          then new ++ replace_from old new (length old - 1) t
          else c :: replace_from old new 0 t
      end
  end.

Definition str_replace (old new x : str) : str := replace_from old new 0 x.

Fixpoint drop_while (p : ascii -> bool) (x : str) : str :=
  match x with
  | [] => []
  | c :: t => if p c then drop_while p t else x
  end.

Fixpoint take_while (p : ascii -> bool) (x : str) : str :=
  match x with
  | [] => []
  | c :: t => if p c then c :: take_while p t else []
  end.

Definition lstrip (x : str) : str := drop_while is_space x.
Definition rstrip (x : str) : str := rev (drop_while is_space (rev x)).

(** [x.strip()] *)
Definition strip (x : str) : str := rstrip (lstrip x).

(** [x.rstrip(chars)] for a one-character [chars]. *)
Definition rstrip_char (c : ascii) (x : str) : str :=
  rev (drop_while (Ascii.eqb c) (rev x)).

(** [re.sub(r'\s+', ' ', x)]: every maximal run of white space becomes one
    space.  [in_run] tells that the previous character was white space. *)
Fixpoint collapse_from (in_run : bool) (x : str) : str :=
  match x with
  | [] => []
  | c :: t =>
      if is_space c
      then (if in_run then collapse_from true t else SP :: collapse_from true t)
      else c :: collapse_from false t
  end.

Definition collapse_spaces (x : str) : str := collapse_from false x.

(** [str.lower] on the ASCII range. *)
Definition lower_char (c : ascii) : ascii :=
  let n := nat_of_ascii c in
  if (65 <=? n) && (n <=? 90) then ascii_of_nat (n + 32) else c.

Definition lower (x : str) : str := map lower_char x.

(** Predicates on whole strings used to state what the cleaning steps
    leave alone. *)
Definition not_comma (c : ascii) : bool := negb (Ascii.eqb "," c).

Definition no_space (x : str) : bool := forallb (fun c => negb (is_space c)) x.

Ltac by_cases_on_char c :=
  destruct c as [[] [] [] [] [] [] [] []]; vm_compute; intros;
  try reflexivity; try discriminate; try congruence.

(* ================================================================== *)
(** * Regular expressions, as [re] runs them                          *)
(* ================================================================== *)

(** The fragment of the pattern language the scraper uses.  [Alt] is the
    ordered choice and [Star] the greedy repetition of a backtracking
    matcher. *)
Inductive re : Type :=
| Eps : re
| Cls : (ascii -> bool) -> re
| Seq : re -> re -> re
| Alt : re -> re -> re
| Star : re -> re.

Definition Chr (c : ascii) : re := Cls (Ascii.eqb c).
Definition Opt (r : re) : re := Alt r Eps.
Definition Plus (r : re) : re := Seq r (Star r).

Fixpoint Lit (l : str) : re :=
  match l with
  | [] => Eps
  | c :: t => Seq (Chr c) (Lit t)
  end.

Fixpoint Rep (n : nat) (r : re) : re :=
  match n with
  | O => Eps
  | S n' => Seq r (Rep n' r)
  end.

(** The rounds of a greedy repetition: [step] matches the body once.  Another
    round is tried first, and must consume a character; when it cannot be
    made to succeed the repetition stops and the continuation runs.  The
    counter [n] bounds the number of rounds by the length of the text. *)
Fixpoint rounds (step : str -> (str -> option str) -> option str)
    (k : str -> option str) (n : nat) (x : str) {struct n} : option str :=
  match n with
  | O => k x
  | S n' =>
      match step x (fun y => if length y <? length x
                             then rounds step k n' y else None) with
      | Some z => Some z
      | None => k x
      end
  end.

(** [bt r x k]: match [r] at the start of [x] and hand the rest of the text
    to the continuation [k]; the first alternative that lets [k] succeed
    wins.  The result is the text left after the whole match. *)
Fixpoint bt (r : re) (x : str) (k : str -> option str) {struct r} : option str :=
  match r with
  | Eps => k x
  | Cls p =>
      match x with
      | c :: t => if p c then k t else None
      | [] => None
      end
  | Seq a b => bt a x (fun y => bt b y k)
  | Alt a b =>
      match bt a x k with
      | Some z => Some z
      | None => bt b x k
      end
  | Star a => rounds (bt a) k (length x) x
  end.

(** [re.match]: the matched text and what follows it. *)
Definition re_match (r : re) (x : str) : option (str * str) :=
  match bt r x Some with
  | Some rest => Some (firstn (length x - length rest) x, rest)
  | None => None
  end.

(** [re.search(...).group(0)]: the match at the leftmost position that has
    one. *)
Fixpoint re_search (r : re) (x : str) : option str :=
  match re_match r x with
  | Some (m, _) => Some m
  | None =>
      match x with
      | [] => None
      | _ :: t => re_search r t
      end
  end.

(** The declarative reading of a pattern. *)
Inductive matches : re -> str -> Prop :=
| m_eps : matches Eps []
| m_cls : forall p c, p c = true -> matches (Cls p) [c]
| m_seq : forall a b x y, matches a x -> matches b y -> matches (Seq a b) (x ++ y)
| m_alt_l : forall a b x, matches a x -> matches (Alt a b) x
| m_alt_r : forall a b x, matches b x -> matches (Alt a b) x
| m_star_nil : forall a, matches (Star a) []
| m_star_cons : forall a x y,
    matches a x -> matches (Star a) y -> matches (Star a) (x ++ y).

(* ================================================================== *)
(** * Scraper.py: price normalisation                                  *)
(* ================================================================== *)

(** A cell of a data frame or an argument of [normalize_price]: a string,
    or the float NaN that pandas puts where a CSV field is empty. *)
Inductive pyval : Type :=
| VStr : str -> pyval
| VNaN : pyval.

(** [r'[$₹]?\d+(?:,\d{3})*(?:\.\d{2})?'], part by part, with [\d] read on
    the ASCII range. *)
Definition price_symbol : re := Opt (Alt (Chr "$") (Lit rupee)).
Definition price_digits : re := Plus (Cls is_digit).
Definition price_group : re := Seq (Chr ",") (Rep 3 (Cls is_digit)).
Definition price_fraction : re := Opt (Seq (Chr ".") (Rep 2 (Cls is_digit))).

Definition price_re : re :=
  Seq price_symbol (Seq price_digits (Seq (Star price_group) price_fraction)).

(** The text the pattern is searched in: line breaks become spaces, the
    ends are stripped and white space runs are collapsed. *)
Definition clean_text (x : str) : str :=
  collapse_spaces (strip (map (fun c => if Ascii.eqb c CR then SP else c)
                           (map (fun c => if Ascii.eqb c LF then SP else c) x))).

Definition normalize_price (price : pyval) : str :=
  match price with
  | VNaN => []
  | VStr x =>
      match re_search price_re (clean_text x) with
      | Some m => str_replace (py ",") [] m
      | None => []
      end
  end.

(** The greedy reading of [price_re] at one position: what is left of the
    text after the currency symbol, the digits, the comma groups and the
    fraction; [None] when no digit follows the optional symbol. *)
Definition after_symbol (x : str) : str :=
  match x with
  | c :: t =>
      if Ascii.eqb "$" c then t
      else if prefixb rupee x then skipn 3 x else x
  | [] => []
  end.

Fixpoint after_groups (x : str) : str :=
  match x with
  | c :: d1 :: d2 :: d3 :: t =>
      if Ascii.eqb "," c && is_digit d1 && is_digit d2 && is_digit d3
      then after_groups t else x
  | _ => x
  end.

Definition after_fraction (x : str) : str :=
  match x with
  | c :: d1 :: d2 :: t =>
      if Ascii.eqb "." c && is_digit d1 && is_digit d2 then t else x
  | _ => x
  end.

Definition price_rest (x : str) : option str :=
  match after_symbol x with
  | d :: t =>
      if is_digit d
      then Some (after_fraction (after_groups (drop_while is_digit t)))
      else None
  | [] => None
  end.

(** The strings [normalize_price] produces when it finds a price: an optional
    currency symbol, digits, and an optional fraction of two digits. *)
Definition canonical_price (p : str) : Prop :=
  exists sym ds fr,
    p = sym ++ ds ++ fr /\
    (sym = [] \/ sym = py "$" \/ sym = rupee) /\
    ds <> [] /\ forallb is_digit ds = true /\
    (fr = [] \/ exists d1 d2, fr = "."%char :: d1 :: d2 :: nil /\
                              is_digit d1 = true /\ is_digit d2 = true).

(* ================================================================== *)
(** * Python floats                                                    *)
(* ================================================================== *)

(** A float is modelled by the exact rational its literal denotes; the two
    infinities and NaN are kept apart because [float] accepts their names
    and comparisons treat them specially.  Binary rounding is left out: it
    is monotone, so that it can only merge values the model keeps apart, and
    it is exact on the two-decimal prices of ordinary size that
    [normalize_price] produces. *)
Inductive pyfloat : Type :=
| FNum : Q -> pyfloat
| FInf : bool -> pyfloat        (* [true] for the negative one *)
| FNaN : pyfloat.

Definition digit_val (c : ascii) : Z := Z.of_nat (nat_of_ascii c - 48).

(** The value of a digit string, most significant digit first. *)
Definition digits_val (ds : str) : Z :=
  fold_left (fun acc c => (10 * acc + digit_val c)%Z) ds 0%Z.

(** [digit (["_"] digit)*] once a first digit is known to be there: the
    digits read and the rest of the text. *)
Fixpoint digitpart (x : str) : str * str :=
  match x with
  | c :: t =>
      if is_digit c
      then let (ds, r) := digitpart t in (c :: ds, r)
      else if Ascii.eqb c "_"
      then match t with
           | d :: t' =>
               if is_digit d
               then let (ds, r) := digitpart t' in (d :: ds, r)
               else ([], x)
           | [] => ([], x)
           end
      else ([], x)
  | [] => ([], [])
  end.

Definition opt_digitpart (x : str) : str * str :=
  match x with
  | c :: _ => if is_digit c then digitpart x else ([], x)
  | [] => ([], [])
  end.

Definition opt_sign (x : str) : bool * str :=
  match x with
  | c :: t =>
      if Ascii.eqb c "-" then (true, t)
      else if Ascii.eqb c "+" then (false, t) else (false, x)
  | [] => (false, [])
  end.

(** [[e|E] [sign] digitpart], or nothing: the exponent and the rest. *)
Definition opt_exponent (x : str) : option (Z * str) :=
  match x with
  | c :: t =>
      if Ascii.eqb c "e" || Ascii.eqb c "E"
      then let (neg, t1) := opt_sign t in
           match opt_digitpart t1 with
           | ([], _) => None
           | (ds, r) => Some (if neg then (- digits_val ds)%Z else digits_val ds, r)
           end
      else Some (0%Z, x)
  | [] => Some (0%Z, [])
  end.

(** [[digitpart] "." digitpart | digitpart ["."]], then the exponent; the
    whole text must be used up. *)
Definition parse_number (x : str) : option Q :=
  let (ip, r1) := opt_digitpart x in
  let '(fp, r2, ok) :=
    match r1 with
    | c :: t =>
        if Ascii.eqb c "."
        then let (fp, r) := opt_digitpart t in
             (fp, r, negb (match ip, fp with [], [] => true | _, _ => false end))
        else ([], r1, negb (match ip with [] => true | _ => false end))
    | [] => ([], [], negb (match ip with [] => true | _ => false end))
    end in
  if ok
  then match opt_exponent r2 with
       | Some (e, []) =>
           Some (inject_Z (digits_val (ip ++ fp))
                 * Qpower (10 # 1) (e - Z.of_nat (length fp)))%Q
       | _ => None
       end
  else None.

(** [float(x)] for a string; [None] stands for the [ValueError]. *)
Definition py_float (x : str) : option pyfloat :=
  let (neg, body) := opt_sign (strip x) in
  let word := lower body in
  if str_eqb word (py "inf") || str_eqb word (py "infinity") then Some (FInf neg)
  else if str_eqb word (py "nan") then Some FNaN
  else match parse_number body with
       | Some q => Some (FNum (if neg then - q else q)%Q)
       | None => None
       end.

(** [a < b] *)
Definition float_lt (a b : pyfloat) : bool :=
  match a, b with
  | FNum p, FNum q => negb (Qle_bool q p)
  | FNum _, FInf neg => negb neg
  | FInf neg, FNum _ => neg
  | FInf n1, FInf n2 => n1 && negb n2
  | _, _ => false
  end.

(** [a != b] *)
Definition float_ne (a b : pyfloat) : bool :=
  match a, b with
  | FNum p, FNum q => negb (Qeq_bool p q)
  | FInf n1, FInf n2 => negb (Bool.eqb n1 n2)
  | _, _ => true
  end.

(** Rounding of a rational to the nearest integer, ties to the even one. *)
Definition round_half_even (q : Q) : Z :=
  let n := Qnum q in
  let d := Zpos (Qden q) in
  let f := (n / d)%Z in
  let twice := (2 * (n mod d))%Z in
  if (twice <? d)%Z then f
  else if (d <? twice)%Z then (f + 1)%Z
  else if Z.even f then f else (f + 1)%Z.

(** [round(v, 2)]: the infinities and NaN are returned as they are. *)
Definition round2 (v : pyfloat) : pyfloat :=
  match v with
  | FNum q => FNum (round_half_even (q * (100 # 1))%Q # 100)%Q
  | _ => v
  end.

(* ================================================================== *)
(** * Scraper.py: configuration                                       *)
(* ================================================================== *)

Definition BASE_URL : str := py "https://nidhiratna.com".
Definition MAIN_SITEMAP_URL : str := BASE_URL ++ py "/sitemap.xml".
Definition MAX_RETRIES : nat := 3.
Definition RETRY_BACKOFF : nat := 2.

(* ================================================================== *)
(** * Scraper.py: the parsed page and the field extractors             *)
(* ================================================================== *)

Record button : Type := {
  btn_text : str;          (* [btn.get_text(strip=True)] *)
  btn_disabled : bool      (* [btn.has_attr('disabled')] *)
}.

(** What the scraper asks of a parsed product page. *)
Record soup : Type := {
  select_one_text : str -> option str;  (* [.text] of [select_one(sel)] *)
  og_title_content : option str;        (* [content] of the og:title meta tag *)
  title_text : option str;              (* [soup.title.text] *)
  ld_json_sku : option str;             (* the [sku] of the ld+json block *)
  price_containers : list (list str);   (* per price container, the
                                           [get_text(strip=True)] of every
                                           nested [span] and [div] *)
  page_text : str;                      (* [soup.get_text(separator=' ')] *)
  buttons : list button                 (* [soup.find_all('button')] *)
}.

Definition quote : ascii := ascii_of_nat 34.

Definition title_selectors : list str :=
  [py "h1.product-title"; py "h1.product__title"; py "h1.h2"; py "h1";
   py "meta[property=" ++ [quote] ++ py "og:title" ++ [quote] ++ py "]"].

Definition is_empty (x : str) : bool :=
  match x with [] => true | _ :: _ => false end.

Fixpoint first_title (sp : soup) (sels : list str) : option str :=
  match sels with
  | [] => None
  | sel :: rest =>
      let found :=
        if prefixb (py "meta") sel
        then match og_title_content sp with
             | Some c => if is_empty c then None else Some (strip c)
             | None => None
             end
        else match select_one_text sp sel with
             | Some t => if is_empty (strip t) then None else Some (strip t)
             | None => None
             end in
      match found with
      | Some t => Some t
      | None => first_title sp rest
      end
  end.

Definition scrape_title (sp : soup) : str :=
  match first_title sp title_selectors with
  | Some t => t
  | None =>
      match title_text sp with
      | Some t => if is_empty (strip t) then py "No title found" else strip t
      | None => py "No title found"
      end
  end.

Definition sku_selectors : list str :=
  [py "span.sku"; py "span.product-sku"; py "span.variant-sku"; py "div.sku";
   py "[class*=" ++ [quote] ++ py "sku" ++ [quote] ++ py "]"].

Fixpoint first_sku (sp : soup) (sels : list str) : option str :=
  match sels with
  | [] => None
  | sel :: rest =>
      match select_one_text sp sel with
      | Some t => if is_empty (strip t) then first_sku sp rest else Some (strip t)
      | None => first_sku sp rest
      end
  end.

(** [url.rstrip('/').split('/')[-1]] *)
Definition last_segment (url : str) : str :=
  rev (take_while (fun c => negb (Ascii.eqb c "/")) (rev (rstrip_char "/" url))).

Definition scrape_sku (sp : soup) (url : str) : str :=
  match first_sku sp sku_selectors with
  | Some t => t
  | None =>
      match ld_json_sku sp with
      | Some k => k
      | None => last_segment url
      end
  end.

(** The sort key of [scrape_prices]; [None] when [float] raises. *)
Definition price_key (p : str) : option pyfloat :=
  py_float (str_replace rupee [] (str_replace (py "$") [] p)).

Fixpoint with_keys (l : list str) : option (list (pyfloat * str)) :=
  match l with
  | [] => Some []
  | p :: t =>
      match price_key p, with_keys t with
      | Some k, Some kt => Some ((k, p) :: kt)
      | _, _ => None
      end
  end.

(** [sorted] is stable: an element goes in front of the first one whose key
    is not smaller than its own. *)
Fixpoint insert_by_key (x : pyfloat * str) (l : list (pyfloat * str))
  : list (pyfloat * str) :=
  match l with
  | [] => [x]
  | y :: t => if float_lt (fst y) (fst x) then y :: insert_by_key x t else x :: l
  end.

Definition sort_by_key (l : list (pyfloat * str)) : list (pyfloat * str) :=
  fold_right insert_by_key [] l.

(** [sorted(xs, key=...)]; [None] when a key raises. *)
Definition sorted_by_price (l : list str) : option (list str) :=
  match with_keys l with
  | Some kl => Some (map snd (sort_by_key kl))
  | None => None
  end.

(** [a <= b] between two floats that are both numbers. *)
Definition float_le (a b : pyfloat) : Prop :=
  match a, b with
  | FNum p, FNum q => (p <= q)%Q
  | _, _ => False
  end.

(** The same between two sort keys, neither of which raised. *)
Definition key_le (a b : option pyfloat) : Prop :=
  match a, b with
  | Some x, Some y => float_le x y
  | _, _ => False
  end.

(** The order of the keyed prices, and the keys on which it is an order. *)
Definition pair_le (a b : pyfloat * str) : Prop := float_le (fst a) (fst b).

Definition num_key (kp : pyfloat * str) : Prop := exists q, fst kp = FNum q.

(** The order in which [sorted] leaves the prices. *)
Definition price_le (a b : str) : Prop := key_le (price_key a) (price_key b).

(** [sale] and [regular] are taken from [prices] and no price of the list has
    a value below that of [sale] or above that of [regular]. *)
Definition lowest_and_highest (prices : list str) (sale regular : str) : Prop :=
  In sale prices /\ In regular prices /\
  forall p, In p prices ->
    key_le (price_key sale) (price_key p) /\
    key_le (price_key p) (price_key regular).

(** The shape of a price once its currency symbol is gone. *)
Definition number_text (ds fr : str) : Prop :=
  ds <> [] /\ forallb is_digit ds = true /\
  (fr = [] \/ exists d1 d2, fr = "."%char :: d1 :: d2 :: nil /\
                            is_digit d1 = true /\ is_digit d2 = true).

(** Text made of digits and full stops only. *)
Definition plain (x : str) : bool :=
  forallb (fun c => is_digit c || Ascii.eqb "." c) x.

(** [bool(x)] for [None] or a string. *)
Definition truthy (x : option str) : bool :=
  match x with
  | Some (_ :: _) => true
  | _ => false
  end.

(** [x or ''] *)
Definition or_empty (x : option str) : str :=
  match x with
  | Some (c :: t) => c :: t
  | _ => []
  end.

(** The prices kept from the fragments of one container. *)
Definition prices_of (fragments : list str) : list str :=
  filter (fun p => negb (is_empty p) && negb (str_eqb p (py "$0.00")))
         (map (fun text => normalize_price (VStr text)) fragments).

Section Extraction.

(** The order in which a [set] of strings is iterated: hashing decides it,
    the program does not. *)
Variable set_iter : list str -> list str.

(** The loop of [scrape_prices] over the containers left to scan, with the
    current values of [sale_price] and [regular_price].  [None] stands for
    an exception of the sort key. *)
Fixpoint scan_containers (containers : list (list str))
    (sale regular : option str) : option (option str * option str) :=
  match containers with
  | [] => Some (sale, regular)
  | container :: rest =>
      match sorted_by_price (set_iter (prices_of container)) with
      | None => None
      | Some prices_found =>
          let '(sale', regular') :=
            match prices_found with
            | [] => (sale, regular)
            | [p] => (Some p, Some p)
            | p :: q :: t => (Some p, Some (last (q :: t) p))
            end in
          if truthy sale' && truthy regular'
          then Some (sale', regular')
          else scan_containers rest sale' regular'
      end
  end.

Definition scrape_prices (sp : soup) : option (str * str) :=
  match scan_containers (price_containers sp) None None with
  | Some (sale, regular) => Some (or_empty sale, or_empty regular)
  | None => None
  end.

End Extraction.

Definition sold_out_texts : list str :=
  [py "sold out"; py "out of stock"; py "unavailable"].

Definition cart_phrase (btn_text : str) : bool :=
  contains (py "add to cart") btn_text || contains (py "buy now") btn_text
  || contains (py "add to bag") btn_text.

Fixpoint scan_buttons (btns : list button) : str :=
  match btns with
  | [] => py "Unknown"
  | btn :: rest =>
      if cart_phrase (lower (btn_text btn))
      then (if negb (btn_disabled btn) then py "Available" else scan_buttons rest)
      else scan_buttons rest
  end.

Definition scrape_availability (sp : soup) : str :=
  let text := lower (page_text sp) in
  if existsb (fun x => contains x text) sold_out_texts
  then py "Sold Out"
  else scan_buttons (buttons sp).

(* ================================================================== *)
(** * Scraper.py: the crawl                                            *)
(* ================================================================== *)

(** One row of a snapshot.  The price cells are [pyval]s: strings in the
    rows the crawl builds, possibly NaN in rows read back from a CSV file. *)
Record product : Type := {
  Title : str;
  SKU : str;
  Sale_Price : pyval;
  Regular_Price : pyval;
  Availability : str;
  Link : str;
  Date : str
}.

(** The state the crawl threads along: how many requests were sent and the
    pauses taken, in seconds. *)
Record world : Type := {
  requests : nat;
  slept : list Q
}.

Definition M (A : Type) : Type := world -> A * world.

Definition ret {A : Type} (a : A) : M A := fun w => (a, w).

Definition bind {A B : Type} (m : M A) (f : A -> M B) : M B :=
  fun w => let (a, w') := m w in f a w'.

Notation "x <- m ;; k" := (bind m (fun x => k))
  (at level 61, m at next level, right associativity).
Notation "m ;;; k" := (bind m (fun _ => k))
  (at level 61, right associativity).

Definition sleep (seconds : Q) : M unit :=
  fun w => (tt, {| requests := requests w; slept := slept w ++ [seconds] |}).

(** [OrderedDict.fromkeys(keys)]: a key that is already there keeps its
    place. *)
Definition add_key (d : list str) (k : str) : list str :=
  if existsb (str_eqb k) d then d else d ++ [k].

Definition fromkeys (keys : list str) : list str :=
  fold_left add_key keys [].

(** [DataFrame(rows).drop_duplicates(subset="Link")]: the first row of each
    link is kept. *)
Definition drop_duplicates (rows : list product) : list product :=
  fold_left (fun d r => if existsb (fun r' => str_eqb (Link r') (Link r)) d
                        then d else d ++ [r]) rows [].

Section Crawl.

Variable response : Type.

(** The network: the answer to the [n]-th request of the run when it asks
    for [url]; [None] when [requests.get] or [raise_for_status] raises. *)
Variable net : nat -> str -> option response.

(** The text of every [loc] element of a response parsed as XML. *)
Variable sitemap_locs : response -> list str.

(** A response parsed as HTML. *)
Variable parse_html : response -> soup.

Variable today : str.
Variable set_iter : list str -> list str.

Definition requests_get (url : str) : M (option response) :=
  fun w => (net (requests w) url,
            {| requests := S (requests w); slept := slept w |}).

(** The loop of [requests_get_with_retry] from attempt number [attempt]
    on, with [remaining] attempts left in the range. *)
Fixpoint attempts (remaining attempt : nat) (url : str) : M (option response) :=
  match remaining with
  | O => ret None
  | S r =>
      resp <- requests_get url ;;
      match resp with
      | Some x => ret (Some x)
      | None =>
          if attempt =? MAX_RETRIES
          then ret None
          else sleep (inject_Z (Z.of_nat (RETRY_BACKOFF * attempt))) ;;;
               attempts r (S attempt) url
      end
  end.

Definition requests_get_with_retry (url : str) : M (option response) :=
  attempts MAX_RETRIES 1 url.

(** The product sitemaps named by the master sitemap. *)
Definition sitemap_urls (master : response) : list str :=
  map strip (filter (contains (py "sitemap_products")) (sitemap_locs master)).

(** The loop over the product sitemaps; a sitemap that cannot be loaded is
    skipped. *)
Fixpoint collect_product_urls (sitemaps : list str) (product_urls : list str)
  : M (list str) :=
  match sitemaps with
  | [] => ret product_urls
  | sitemap_url :: rest =>
      resp <- requests_get_with_retry sitemap_url ;;
      match resp with
      | None => collect_product_urls rest product_urls
      | Some r =>
          let urls := filter (contains (py "/products/")) (sitemap_locs r) in
          collect_product_urls rest (product_urls ++ urls)
      end
  end.

(** The record built from one product page.  [None] when the sort key of
    [scrape_prices] raises. *)
Definition scrape_page (sp : soup) (url : str) : option product :=
  match scrape_prices set_iter sp with
  | Some (sale_price, regular_price) =>
      Some {| Title := scrape_title sp;
              SKU := scrape_sku sp url;
              Sale_Price := VStr sale_price;
              Regular_Price := VStr regular_price;
              Availability := scrape_availability sp;
              Link := url;
              Date := today |}
  | None => None
  end.

(** The loop over the product pages, with the lists [results] and [errors]
    it appends to.  [None] when a page makes the extraction raise. *)
Fixpoint scrape_products (urls : list str) (results : list product)
    (errors : list str) : M (option (list product * list str)) :=
  match urls with
  | [] => ret (Some (results, errors))
  | url :: rest =>
      resp <- requests_get_with_retry url ;;
      match resp with
      | None => scrape_products rest results (errors ++ [url])
      | Some r =>
          match scrape_page (parse_html r) url with
          | Some row =>
              sleep (1 # 2)%Q ;;;
              scrape_products rest (results ++ [row]) errors
          | None => ret None
          end
      end
  end.

End Crawl.

Arguments requests_get {response}.
Arguments attempts {response}.
Arguments requests_get_with_retry {response}.
Arguments sitemap_urls {response}.
Arguments collect_product_urls {response}.
Arguments scrape_products {response}.

(* ================================================================== *)
(** * Scraper.py: comparison with the previous data                    *)
(* ================================================================== *)

(** [nidhi_prices.csv] as the comparison finds it.  A frame stands for a
    file with the columns the scraper writes.  Its cells are text or NaN: it
    stands for a file whose price columns [read_csv] takes for text
    ([text_prices]); a column in which every price is a bare number is
    handed over as floats and is not among the frames. *)
Inductive stored_csv : Type :=
| NoFile : stored_csv                       (* [os.path.exists] is false *)
| Unreadable : stored_csv                   (* [read_csv] raises *)
| NoLinkColumn : stored_csv
| Frame : list product -> stored_csv.

(** What [to_csv] followed by [read_csv] makes of a cell of a column that is
    read back as text: an empty field comes back as NaN, any other text as
    it is.  A price column is read back as text when one of its prices
    carries a currency symbol, and as NaN throughout when it is blank
    throughout ([text_column]). *)
Definition read_cell (v : pyval) : pyval :=
  match v with
  | VStr [] => VNaN
  | _ => v
  end.

Definition reload (p : product) : product :=
  {| Title := Title p; SKU := SKU p;
     Sale_Price := read_cell (Sale_Price p);
     Regular_Price := read_cell (Regular_Price p);
     Availability := Availability p; Link := Link p; Date := Date p |}.

(** The rows a run saves, as the next run loads them. *)
Definition reloaded (results : list product) : list product :=
  map reload (drop_duplicates results).

(** [bool(v)]: the empty string is false, NaN is a non-zero float. *)
Definition py_truthy (v : pyval) : bool :=
  match v with
  | VStr [] => false
  | _ => true
  end.

(** [a != b]: NaN differs from everything. *)
Definition py_ne (a b : pyval) : bool :=
  match a, b with
  | VStr x, VStr y => negb (str_eqb x y)
  | _, _ => true
  end.

(** [pd.merge(old_df, new_df, on="Link")]: pairs of an old and a new row
    with the same link, in the order of the old rows. *)
Definition merge_inner (old_df new_df : list product) : list (product * product) :=
  flat_map (fun o =>
    map (fun n => (o, n))
        (filter (fun n => str_eqb (Link o) (Link n)) new_df)) old_df.

(** The test that decides whether a joined row is logged as a price change,
    on cells that are text or NaN. *)
Definition price_changed (row : product * product) : bool :=
  let old_sale := Sale_Price (fst row) in
  let new_sale := Sale_Price (snd row) in
  let old_regular := Regular_Price (fst row) in
  let new_regular := Regular_Price (snd row) in
  (py_ne old_sale new_sale || py_ne old_regular new_regular)
  && py_truthy old_sale && py_truthy new_sale.

(** What the comparison logs. *)
Record comparison : Type := {
  price_changes : list (product * product);
  new_products : list product;
  removed_products : list str
}.

Definition nothing_logged : comparison :=
  {| price_changes := []; new_products := []; removed_products := [] |}.

Definition compare (old : stored_csv) (results : list product) : comparison :=
  match old, results with
  | Frame old_df, _ :: _ =>
      let new_df := drop_duplicates results in
      let old_links := map Link old_df in
      let new_links := map Link new_df in
      {| price_changes := filter price_changed (merge_inner old_df new_df);
         new_products :=
           filter (fun item => negb (existsb (str_eqb (Link item)) old_links))
                  results;
         removed_products :=
           filter (fun l => negb (existsb (str_eqb l) new_links))
                  (fromkeys old_links) |}
  | _, _ => nothing_logged
  end.

(** The whole script: discovery, crawl, comparison, and the list of pages
    that could not be fetched.  [Fatal] is [exit(1)], [Raised] an exception
    that nothing catches. *)
Inductive outcome : Type :=
| Fatal : outcome
| Raised : outcome
| Done : list product -> comparison -> list str -> outcome.

Section Script.

Variable response : Type.
Variable net : nat -> str -> option response.
Variable sitemap_locs : response -> list str.
Variable parse_html : response -> soup.
Variable today : str.
Variable set_iter : list str -> list str.

Definition main (old : stored_csv) : M outcome :=
  master <- requests_get_with_retry net MAIN_SITEMAP_URL ;;
  match master with
  | None => ret Fatal
  | Some m =>
      all_urls <- collect_product_urls net sitemap_locs
                    (sitemap_urls sitemap_locs m) [] ;;
      let product_urls := fromkeys all_urls in
      scraped <- scrape_products net parse_html today set_iter
                   product_urls [] [] ;;
      match scraped with
      | None => ret Raised
      | Some (results, errors) =>
          ret (Done (drop_duplicates results) (compare old results) errors)
      end
  end.

End Script.

Arguments main {response}.

(* ================================================================== *)
(** * app.py: the dashboard                                            *)
(* ================================================================== *)

Module App.

(** [df['Link'].str.lower().str.rstrip('/')] *)
Definition normalize_link (link : str) : str :=
  rstrip_char "/" (lower link).

(** [fillna('')] *)
Definition fillna (v : pyval) : pyval :=
  match v with
  | VNaN => VStr []
  | VStr x => VStr x
  end.

(** [str(p)] *)
Definition py_str (p : pyval) : str :=
  match p with
  | VStr x => x
  | VNaN => py "nan"
  end.

(** Python rounds the float only when [float] did not raise; [None] is the
    value of the [except] branch. *)
Definition safe_float (p : pyval) : option pyfloat :=
  match py_float (strip (str_replace (py ",") []
                   (str_replace rupee [] (str_replace (py "$") [] (py_str p))))) with
  | Some v => Some (round2 v)
  | None => None
  end.

(** The previous snapshot as [load_data] returns it.  A frame without rows
    is what a missing or unreadable file gives.  The price columns are
    filled in when they are missing, so that the only column whose presence
    matters further on is [Title]. *)
Record baseline : Type := {
  has_link : bool;
  has_title : bool;
  rows : list product
}.

Definition no_baseline : baseline :=
  {| has_link := false; has_title := false; rows := [] |}.

Definition prepare (p : product) : product :=
  {| Title := Title p; SKU := SKU p;
     Sale_Price := fillna (Sale_Price p);
     Regular_Price := fillna (Regular_Price p);
     Availability := Availability p;
     Link := normalize_link (Link p); Date := Date p |}.

(** [prev_df] after the link normalisation: empty unless it has rows and a
    [Link] column. *)
Definition prev_df (b : baseline) : list product :=
  if has_link b then map prepare (rows b) else [].

(** [not (prev_df.empty or 'Link' not in prev_df.columns)] *)
Definition show_price_changes (b : baseline) : bool :=
  match prev_df b with
  | [] => false
  | _ :: _ => true
  end.

(** The columns of the previous snapshot that take part in the join:
    the link and the two prices.  The prices are blanked when the previous
    snapshot lacks one of the needed columns. *)
Definition prev_prices (b : baseline) : list (str * (pyval * pyval)) :=
  if has_title b
  then map (fun p => (Link p, (Sale_Price p, Regular_Price p))) (prev_df b)
  else map (fun p => (Link p, (VStr [], VStr []))) (prev_df b).

(** A row of [merged]: a current product and the previous prices. *)
Record merged_row : Type := {
  current : product;
  Sale_Price_old : pyval;
  Regular_Price_old : pyval
}.

(** [pd.merge(df, prev_prices, on='Link', how='left')]: every current row,
    once per previous row with its link, or once with NaN when there is
    none. *)
Definition merge_left (df : list product)
    (prev : list (str * (pyval * pyval))) : list merged_row :=
  flat_map (fun c =>
    match filter (fun q => str_eqb (Link c) (fst q)) prev with
    | [] => [ {| current := c; Sale_Price_old := VNaN;
                 Regular_Price_old := VNaN |} ]
    | q :: qs =>
        map (fun q => {| current := c; Sale_Price_old := fst (snd q);
                         Regular_Price_old := snd (snd q) |}) (q :: qs)
    end) df.

Definition merged (df : list product) (b : baseline) : list merged_row :=
  if show_price_changes b
  then merge_left df (prev_prices b)
  else map (fun c => {| current := c; Sale_Price_old := VStr [];
                        Regular_Price_old := VStr [] |}) df.

Inductive field : Type := Regular_Field | Sale_Field.

(** One entry of the [changes] list of [format_price_changes]: the field,
    the old value and the new one. *)
Record change : Type := {
  changed_field : field;
  old_value : pyfloat;
  new_value : pyfloat
}.

(** The list [changes]; the text shown is ["-"] exactly when it is empty. *)
Definition format_price_changes (row : merged_row) : list change :=
  (match safe_float (Regular_Price (current row)),
         safe_float (Regular_Price_old row) with
   | Some reg_new, Some reg_old =>
       if float_ne reg_new reg_old
       then [ {| changed_field := Regular_Field; old_value := reg_old;
                 new_value := reg_new |} ]
       else []
   | _, _ => []
   end)
  ++
  (match safe_float (Sale_Price (current row)),
         safe_float (Sale_Price_old row) with
   | Some sale_new, Some sale_old =>
       if float_ne sale_new sale_old
       then [ {| changed_field := Sale_Field; old_value := sale_old;
                 new_value := sale_new |} ]
       else []
   | _, _ => []
   end).

Definition has_changes (row : merged_row) : bool :=
  match format_price_changes row with
  | [] => false
  | _ :: _ => true
  end.

(** What the page shows. *)
Record page : Type := {
  all_products : list product;
  filtered_changes : list merged_row;
  new_products : list merged_row
}.

(** The frames the script computes from the loaded ones, up to the list of
    new products; [None] is [st.stop()] on an empty current snapshot.  How
    the tables are then drawn page by page, and where that raises, is
    [View.draw]. *)
Definition dashboard (current_rows : list product) (b : baseline) : option page :=
  match current_rows with
  | [] => None
  | _ :: _ =>
      let df := map prepare current_rows in
      let m := merged df b in
      Some {| all_products := df;
              filtered_changes := filter has_changes m;
              new_products :=
                match prev_df b with
                | [] => m
                | _ :: _ =>
                    filter (fun r =>
                      negb (existsb (str_eqb (Link (current r)))
                                    (map Link (prev_df b)))) m
                end |}
  end.

End App.


(* ================================================================== *)
(** * Final Final/app.py: the other copy of the dashboard              *)
(* ================================================================== *)

(** The second copy of the dashboard has the same [safe_float] and
    [format_price_changes]; it differs in the columns it needs from the
    previous snapshot: the link and the two prices, which are always there
    once the missing price columns are filled in. *)
Module Final_Final.

Definition prev_prices (b : App.baseline) : list (str * (pyval * pyval)) :=
  map (fun p => (Link p, (Sale_Price p, Regular_Price p))) (App.prev_df b).

Definition merged (df : list product) (b : App.baseline) : list App.merged_row :=
  if App.show_price_changes b
  then App.merge_left df (prev_prices b)
  else map (fun c => {| App.current := c; App.Sale_Price_old := VStr [];
                        App.Regular_Price_old := VStr [] |}) df.

End Final_Final.

(* ================================================================== *)
(** * Vocabulary of the statements                                     *)
(* ================================================================== *)



Definition is_upper (c : ascii) : bool :=
  let n := nat_of_ascii c in (65 <=? n) && (n <=? 90).

(** Two characters that are equal or the two cases of one ASCII letter. *)
Definition same_letter (a b : ascii) : Prop :=
  a = b \/
  (is_upper a = true /\ nat_of_ascii b = nat_of_ascii a + 32) \/
  (is_upper b = true /\ nat_of_ascii a = nat_of_ascii b + 32).

(** Two links that differ only by letter case or by trailing slashes. *)
Definition same_product_link (x y : str) : Prop :=
  exists x0 y0 n m,
    x = x0 ++ repeat "/"%char n /\ y = y0 ++ repeat "/"%char m /\
    Forall2 same_letter x0 y0.

(** The answer a fetch settles on when its first request is the [n]-th of
    the run: the first of three consecutive answers that is not a failure. *)
Definition first_answer {response : Type} (net : nat -> str -> option response)
    (url : str) (n : nat) : option response :=
  match net n url with
  | Some r => Some r
  | None =>
      match net (S n) url with
      | Some r => Some r
      | None => net (S (S n)) url
      end
  end.

(* ================================================================== *)
(** * Sample data                                                      *)
(* ================================================================== *)

(** A product page with one price container. *)
Definition sample_page : soup :=
  {| select_one_text := fun _ => None;
     og_title_content := None;
     title_text := Some (py "Ring");
     ld_json_sku := None;
     price_containers := [[py "$20.00"; py "$20.00"; py "$0.00"; py "$15.00"]];
     page_text := py "Ring Add to Cart";
     buttons := [ {| btn_text := py "Add to Cart"; btn_disabled := false |} ] |}.

(** A snapshot row with the given link and prices. *)
Definition row_of (link sale regular : str) : product :=
  {| Title := py "Ring"; SKU := py "ring";
     Sale_Price := VStr sale; Regular_Price := VStr regular;
     Availability := py "Available"; Link := link; Date := py "2024-01-01" |}.

(** A network on which every request fails, and one that answers every
    request with the sample page. *)
Definition net_down : nat -> str -> option soup := fun _ _ => None.
Definition net_up : nat -> str -> option soup := fun _ _ => Some sample_page.

Definition start : world := {| requests := 0; slept := [] |}.

(* ================================================================== *)
(** * app.py: pagination                                               *)
(* ================================================================== *)

Module Pages.

Definition rows_per_page : Z := 20.

(** How a slice bound is read on a sequence of length [n]: a negative bound
    counts from the end, and every bound is clipped to the sequence. *)
Definition slice_bound (n i : Z) : Z :=
  if (i <? 0)%Z then Z.max (n + i) 0 else Z.min i n.

(** [df.iloc[a:b]] *)
Definition iloc {A : Type} (df : list A) (a b : Z) : list A :=
  let n := Z.of_nat (length df) in
  let a' := slice_bound n a in
  let b' := slice_bound n b in
  firstn (Z.to_nat (b' - a')) (skipn (Z.to_nat a') df).

Definition paginate {A : Type} (df : list A) (page : Z) : list A :=
  let start_row := ((page - 1) * rows_per_page)%Z in
  let end_row := (start_row + rows_per_page)%Z in
  iloc df start_row end_row.

(** [(len(df) // rows_per_page) + (1 if len(df) % rows_per_page > 0 else 0)] *)
Definition num_pages (len : Z) : Z :=
  (len / rows_per_page + (if (len mod rows_per_page >? 0)%Z then 1 else 0))%Z.

(** [range(1, n + 1)], the pages offered for selection. *)
Definition page_options (n : Z) : list Z :=
  map Z.of_nat (seq 1 (Z.to_nat n)).

(** The pages offered for the three tables: those of the price changes are
    counted on the whole merged frame, not on the rows with a change. *)
Definition pages_all (df : list product) : list Z :=
  page_options (num_pages (Z.of_nat (length df))).

Definition pages_changes (merged : list App.merged_row) : list Z :=
  page_options (num_pages (Z.of_nat (length merged))).

Definition pages_new (new_products : list App.merged_row) : list Z :=
  page_options (num_pages (Z.of_nat (length new_products))).

End Pages.

(* ================================================================== *)
(** * Vocabulary of the further statements                             *)
(* ================================================================== *)


(** A row as the crawl builds it: the two prices are both blank or both
    canonical. *)
Definition crawl_row (r : product) : Prop :=
  exists sale regular,
    Sale_Price r = VStr sale /\ Regular_Price r = VStr regular /\
    ((sale = [] /\ regular = []) \/
     (canonical_price sale /\ canonical_price regular)).

Definition has_digit (x : str) : bool := existsb is_digit x.

Definition ends_with_slash (x : str) : Prop := exists y, x = y ++ ["/"%char].

(** The rows [drop_duplicates] adds to the rows [d] it already keeps. *)
Fixpoint kept_after (d rows : list product) : list product :=
  match rows with
  | [] => []
  | r :: t =>
      if existsb (fun r' => str_eqb (Link r') (Link r)) d
      then kept_after d t
      else r :: kept_after (d ++ [r]) t
  end.

(** A string of ASCII characters, on which [lower] is [str.lower]. *)
Definition ascii_only (x : str) : bool :=
  forallb (fun c => nat_of_ascii c <? 128) x.

(** A rational with at most two decimals: a whole number of hundredths. *)
Definition two_decimals (q : Q) : Prop :=
  ((Qnum q * 100) mod Zpos (Qden q) = 0)%Z.

(** The rows of the left join that come from the current product [c]. *)
Definition joined_rows (prev : list (str * (pyval * pyval))) (c : product)
  : list App.merged_row :=
  match filter (fun q => str_eqb (Link c) (fst q)) prev with
  | [] => [ {| App.current := c; App.Sale_Price_old := VNaN;
               App.Regular_Price_old := VNaN |} ]
  | q :: qs =>
      map (fun q => {| App.current := c; App.Sale_Price_old := fst (snd q);
                       App.Regular_Price_old := snd (snd q) |}) (q :: qs)
  end.


(* ================================================================== *)
(** * The texts and the files the model stands for                     *)
(* ================================================================== *)

(** Text made of ASCII characters and rupee signs.  On such text [\d],
    [\s], [strip], [lower] and [float] are what [is_digit], [is_space],
    [strip], [lower] and [py_float] compute. *)
Fixpoint ascii_or_rupee (x : str) : bool :=
  match x with
  | [] => true
  | c :: t =>
      if nat_of_ascii c <? 128 then ascii_or_rupee t
      else match t with
           | c2 :: c3 :: t' => str_eqb [c; c2; c3] rupee && ascii_or_rupee t'
           | _ => false
           end
  end.

(** A page whose price containers hold such text only. *)
Definition plain_prices (sp : soup) : Prop :=
  Forall (Forall (fun text => ascii_or_rupee text = true)) (price_containers sp).

(** A price that starts with its currency symbol. *)
Definition has_symbol (p : str) : bool :=
  prefixb (py "$") p || prefixb rupee p.

(** A column of a file that [read_csv] hands over as text and NaN: it is
    blank throughout, or one of its cells starts with a currency symbol, so
    that it cannot be taken for a column of numbers. *)
Definition text_column (cells : list pyval) : Prop :=
  (forall v, In v cells -> v = VNaN) \/
  (exists p, In (VStr p) cells /\ has_symbol p = true).

Definition text_prices (df : list product) : Prop :=
  text_column (map Sale_Price df) /\ text_column (map Regular_Price df).

(** A price cell of a site that shows its prices with the currency symbol:
    blank, or a canonical price that starts with the symbol. *)
Definition symbol_price (v : pyval) : Prop :=
  match v with
  | VStr p => p = [] \/ (canonical_price p /\ has_symbol p = true)
  | VNaN => False
  end.

(** A row of a crawl of such a site: the two prices are both blank or both
    present. *)
Definition symbol_row (r : product) : Prop :=
  exists sale regular,
    Sale_Price r = VStr sale /\ Regular_Price r = VStr regular /\
    ((sale = [] /\ regular = []) \/
     ((canonical_price sale /\ has_symbol sale = true) /\
      (canonical_price regular /\ has_symbol regular = true))).


(* ================================================================== *)
(** * app.py: drawing the tables                                       *)
(* ================================================================== *)

Module View.

(** [st.selectbox(label, options)]: the option the user picked, the first
    one by default; [None] when there is no option to pick. *)
Definition selectbox (options : list Z) (pick : nat) : option Z :=
  match options with
  | [] => None
  | first :: _ => Some (nth pick options first)
  end.

(** The options the user picks in the select boxes of the price changes and
    of the new products. *)
Record picks : Type := {
  pick_changes : nat;
  pick_new : nat
}.

(** What becomes of the two tables that follow the list of all products.
    [paginate] raises a [TypeError] on [page - 1] when the select box has
    handed over [None]; the script ends there, before the button that saves
    the baseline. *)
Inductive drawn : Type :=
| Drawn : list App.merged_row -> list App.merged_row -> drawn
| Raised_at_changes : drawn
| Raised_at_new_products : list App.merged_row -> drawn.

(** The script from the loaded frames to the two tables; [None] is
    [st.stop()] on an empty current snapshot. *)
Definition draw (current_rows : list product) (b : App.baseline) (u : picks)
  : option drawn :=
  match App.dashboard current_rows b with
  | None => None
  | Some pg =>
      let merged := App.merged (map App.prepare current_rows) b in
      match selectbox (Pages.pages_changes merged) (pick_changes u) with
      | None => Some Raised_at_changes
      | Some page_changes =>
          let changes := Pages.paginate (App.filtered_changes pg) page_changes in
          match selectbox (Pages.pages_new (App.new_products pg)) (pick_new u) with
          | None => Some (Raised_at_new_products changes)
          | Some page_new =>
              Some (Drawn changes (Pages.paginate (App.new_products pg) page_new))
          end
      end
  end.

End View.
(* ================================================================== *)
(** * The matcher against the declarative reading of a pattern        *)
(* ================================================================== *)

Lemma rounds_sound (a : re) (k : str -> option str) :
  (forall x k' z, bt a x k' = Some z ->
     exists m y, x = m ++ y /\ matches a m /\ k' y = Some z) ->
  forall n x z, rounds (bt a) k n x = Some z ->
    exists m y, x = m ++ y /\ matches (Star a) m /\ k y = Some z.
Proof.
  intros Ha n; induction n as [|n IHn]; simpl; intros x z H.
  - exists [], x. repeat split; auto. constructor.
  - destruct (bt a x _) as [z'|] eqn:E.
    + inversion H; subst z'; clear H.
      apply Ha in E. destruct E as (m & y & Hx & Hm & Hk).
      destruct (length y <? length x); [|discriminate].
      apply IHn in Hk. destruct Hk as (m' & y' & Hy & Hm' & Hk').
      exists (m ++ m'), y'. subst. rewrite <- app_assoc.
      repeat split; auto. now constructor.
    + exists [], x. repeat split; auto. constructor.
Qed.

Lemma bt_sound (r : re) :
  forall x k z, bt r x k = Some z ->
    exists m y, x = m ++ y /\ matches r m /\ k y = Some z.
Proof.
  induction r as [|p|a IHa b IHb|a IHa b IHb|a IHa]; simpl; intros x k z H.
  - exists [], x. repeat split; auto. constructor.
  - destruct x as [|c t]; [discriminate|].
    destruct (p c) eqn:Hp; [|discriminate].
    exists [c], t. repeat split; auto. now constructor.
  - apply IHa in H. destruct H as (m1 & y1 & -> & Hm1 & H).
    apply IHb in H. destruct H as (m2 & y2 & -> & Hm2 & H).
    exists (m1 ++ m2), y2. rewrite <- app_assoc. repeat split; auto.
    now constructor.
  - destruct (bt a x k) as [z'|] eqn:E.
    + inversion H; subst z'. apply IHa in E.
      destruct E as (m & y & -> & Hm & Hk).
      exists m, y. repeat split; auto. now apply m_alt_l.
    + apply IHb in H. destruct H as (m & y & -> & Hm & Hk).
      exists m, y. repeat split; auto. now apply m_alt_r.
  - eapply rounds_sound; eauto.
Qed.

Lemma rounds_complete (a : re) (k : str -> option str) :
  (forall x k', bt a x k' = None ->
     forall m y, x = m ++ y -> matches a m -> k' y = None) ->
  forall n x, length x <= n -> rounds (bt a) k n x = None ->
    forall m y, x = m ++ y -> matches (Star a) m -> k y = None.
Proof.
  intros Ha n; induction n as [|n IHn]; simpl; intros x Hlen H m y Hx Hm.
  - destruct x; [|simpl in Hlen; lia].
    symmetry in Hx. apply app_eq_nil in Hx. destruct Hx; subst. exact H.
  - destruct (bt a x _) as [z'|] eqn:E; [discriminate|].
    remember (Star a) as sa eqn:Hsa.
    revert y Hx. induction Hm as [| | | | |a'|a' m1 m2 Hm1 _ Hm2 IH2];
      try discriminate; intros y Hx.
    + simpl in Hx. now subst.
    + inversion Hsa; subst a'; clear Hsa.
      destruct m1 as [|c m1].
      * simpl in *. apply IH2; auto.
      * rewrite <- app_assoc in Hx.
        pose proof (Ha _ _ E _ _ Hx Hm1) as Hk. simpl in Hk.
        assert (Hl : (length (m2 ++ y) <? length x) = true).
        { apply Nat.ltb_lt. subst x. simpl. rewrite !length_app. lia. }
        rewrite Hl in Hk.
        eapply IHn; [| exact Hk | reflexivity | exact Hm2].
        subst x. simpl in Hlen. rewrite !length_app in *. lia.
Qed.

Lemma bt_complete (r : re) :
  forall x k, bt r x k = None ->
    forall m y, x = m ++ y -> matches r m -> k y = None.
Proof.
  induction r as [|p|a IHa b IHb|a IHa b IHb|a IHa]; simpl; intros x k H m y Hx Hm.
  - inversion Hm; subst. exact H.
  - inversion Hm; subst. simpl in H.
    match goal with Hp : p _ = true |- _ => rewrite Hp in H end. exact H.
  - inversion Hm; subst. rewrite <- app_assoc in H.
    pose proof (IHa _ _ H _ _ eq_refl ltac:(eassumption)) as H1. simpl in H1.
    eapply IHb; eauto.
  - destruct (bt a x k) eqn:E; [discriminate|].
    inversion Hm; subst; eauto.
  - eapply rounds_complete; eauto.
Qed.

(** A successful [re.match] splits the text into a word of the pattern and
    the rest. *)
Lemma re_match_sound (r : re) (x m rest : str) :
  re_match r x = Some (m, rest) -> x = m ++ rest /\ matches r m.
Proof.
  unfold re_match. destruct (bt r x Some) as [z|] eqn:E; [|discriminate].
  intros H; inversion H; subst; clear H.
  apply bt_sound in E. destruct E as (m & y & -> & Hm & Hk).
  inversion Hk; subst.
  rewrite length_app, Nat.add_sub, firstn_app, Nat.sub_diag, firstn_all.
  simpl. rewrite app_nil_r. auto.
Qed.

(** [re.match] fails only where no word of the pattern starts. *)
Lemma re_match_none (r : re) (x : str) :
  re_match r x = None -> forall m y, x = m ++ y -> ~ matches r m.
Proof.
  unfold re_match. destruct (bt r x Some) as [z|] eqn:E; [discriminate|].
  intros _ m y Hx Hm. pose proof (bt_complete r x Some E m y Hx Hm). discriminate.
Qed.

Lemma re_match_rest (r : re) (x m rest : str) :
  re_match r x = Some (m, rest) -> bt r x Some = Some rest.
Proof.
  unfold re_match. destruct (bt r x Some); [|discriminate].
  intros H; inversion H; reflexivity.
Qed.

(** [re.search] returns a word of the pattern, found at the leftmost place of
    the text where one starts; it is the word the matcher prefers there. *)
Lemma re_search_some (r : re) : forall x m,
  re_search r x = Some m ->
  exists pre post,
    x = pre ++ m ++ post /\ matches r m /\
    (forall p1 p2 m' y, pre = p1 ++ p2 -> p2 <> [] ->
       p2 ++ m ++ post = m' ++ y -> ~ matches r m') /\
    bt r (m ++ post) Some = Some post.
Proof.
  induction x as [|c t IH]; intros m; cbn [re_search].
  - destruct (re_match r []) as [[m0 rest]|] eqn:E; [|discriminate].
    intros H; inversion H; subst. pose proof (re_match_rest _ _ _ _ E) as Hb.
    apply re_match_sound in E. destruct E as [Hx Hm].
    exists [], rest. repeat split; auto.
    + intros p1 p2 m' y Hp. symmetry in Hp. apply app_eq_nil in Hp. tauto.
    + now rewrite <- Hx.
  - destruct (re_match r (c :: t)) as [[m0 rest]|] eqn:E.
    + intros H; inversion H; subst. pose proof (re_match_rest _ _ _ _ E) as Hb.
      apply re_match_sound in E. destruct E as [Hx Hm].
      exists [], rest. repeat split; auto.
      * intros p1 p2 m' y Hp. symmetry in Hp. apply app_eq_nil in Hp. tauto.
      * now rewrite <- Hx.
    + intros H. apply IH in H. destruct H as (pre & post & -> & Hm & Hleft & Hb).
      exists (c :: pre), post. repeat split; auto.
      intros p1 p2 m' y Hp Hne Hsplit.
      destruct p1 as [|c1 p1]; simpl in Hp.
      * subst p2. simpl in Hsplit. eapply re_match_none; eauto.
      * inversion Hp; subst. eapply Hleft; eauto.
Qed.

(** [re.search] finds nothing only when no word of the pattern occurs in the
    text. *)
Lemma re_search_none (r : re) : forall x,
  re_search r x = None ->
  forall pre m post, x = pre ++ m ++ post -> ~ matches r m.
Proof.
  induction x as [|c t IH]; simpl; intros H pre m post Hx.
  - destruct (re_match r []) as [[m0 rest]|] eqn:E; [discriminate|].
    symmetry in Hx. apply app_eq_nil in Hx. destruct Hx as [-> Hx].
    eapply re_match_none; eauto.
  - destruct (re_match r (c :: t)) as [[m0 rest]|] eqn:E; [discriminate|].
    destruct pre as [|c1 pre]; simpl in Hx.
    + eapply re_match_none; eauto.
    + inversion Hx; subst. eapply IH; eauto.
Qed.

(* ================================================================== *)
(** * The price pattern read greedily                                  *)
(* ================================================================== *)

Lemma rounds_cls (p : ascii -> bool) (k : str -> option str) :
  (forall y, k y <> None) ->
  forall n x, length x <= n ->
    rounds (bt (Cls p)) k n x = k (drop_while p x).
Proof.
  intros Hk n; induction n as [|n IHn]; intros x Hl.
  - destruct x; simpl in *; [reflexivity|lia].
  - destruct x as [|c t]; simpl; [reflexivity|].
    destruct (p c) eqn:Hp; [|reflexivity].
    assert (Hlt : (length t <? S (length t)) = true) by (apply Nat.ltb_lt; lia).
    rewrite Hlt, IHn by (simpl in Hl; lia).
    destruct (k (drop_while p t)) eqn:E; [reflexivity|].
    now apply Hk in E.
Qed.

Lemma bt_price_group (x : str) (k : str -> option str) :
  bt price_group x k =
  match x with
  | c :: d1 :: d2 :: d3 :: t =>
      if Ascii.eqb "," c && is_digit d1 && is_digit d2 && is_digit d3
      then k t else None
  | _ => None
  end.
Proof.
  unfold price_group, Chr. cbn [bt Rep].
  destruct x as [|c x]; [reflexivity|].
  destruct (Ascii.eqb "," c); cbn [andb];
    [|destruct x as [|? [|? [|? ?]]]; reflexivity].
  destruct x as [|d1 x]; [reflexivity|].
  destruct (is_digit d1); cbn [andb]; [|destruct x as [|? [|? ?]]; reflexivity].
  destruct x as [|d2 x]; [reflexivity|].
  destruct (is_digit d2); cbn [andb]; [|destruct x as [|? ?]; reflexivity].
  destruct x as [|d3 x]; [reflexivity|].
  destruct (is_digit d3); reflexivity.
Qed.

Lemma rounds_price_group (k : str -> option str) :
  (forall y, k y <> None) ->
  forall n x, length x <= n ->
    rounds (bt price_group) k n x = k (after_groups x).
Proof.
  intros Hk n; induction n as [|n IHn]; intros x Hl.
  - destruct x; simpl in *; [reflexivity|lia].
  - cbn [rounds]. rewrite bt_price_group.
    destruct x as [|c [|d1 [|d2 [|d3 t]]]]; try reflexivity.
    cbn [after_groups].
    destruct (Ascii.eqb "," c && is_digit d1 && is_digit d2 && is_digit d3);
      [|reflexivity].
    assert (Hlt : (length t <? length (c :: d1 :: d2 :: d3 :: t)) = true)
      by (apply Nat.ltb_lt; simpl; lia).
    rewrite Hlt, IHn by (simpl in Hl; lia).
    destruct (k (after_groups t)) eqn:E; [reflexivity|].
    now apply Hk in E.
Qed.

Lemma bt_price_fraction (x : str) :
  bt price_fraction x Some = Some (after_fraction x).
Proof.
  unfold price_fraction, Opt, Chr, after_fraction. cbn [bt Rep].
  destruct x as [|c x]; [reflexivity|].
  destruct (Ascii.eqb "." c); cbn [andb];
    [|destruct x as [|? [|? ?]]; reflexivity].
  destruct x as [|d1 x]; [reflexivity|].
  destruct (is_digit d1); cbn [andb]; [|destruct x as [|? ?]; reflexivity].
  destruct x as [|d2 x]; [reflexivity|].
  destruct (is_digit d2); reflexivity.
Qed.

Lemma bt_price_tail (x : str) :
  bt (Seq (Star price_group) price_fraction) x Some
  = Some (after_fraction (after_groups x)).
Proof.
  cbn [bt].
  rewrite rounds_price_group; auto.
  - apply bt_price_fraction.
  - intros y. rewrite bt_price_fraction. discriminate.
Qed.

Lemma bt_price_number (x : str) :
  bt (Seq price_digits (Seq (Star price_group) price_fraction)) x Some =
  match x with
  | d :: t =>
      if is_digit d
      then Some (after_fraction (after_groups (drop_while is_digit t)))
      else None
  | [] => None
  end.
Proof.
  unfold price_digits, Plus.
  change (bt (Seq (Seq (Cls is_digit) (Star (Cls is_digit)))
               (Seq (Star price_group) price_fraction)) x Some)
    with (match x with
          | c :: t =>
              if is_digit c
              then rounds (bt (Cls is_digit))
                     (fun y => bt (Seq (Star price_group) price_fraction) y Some)
                     (length t) t
              else None
          | [] => None
          end).
  destruct x as [|d t]; [reflexivity|].
  destruct (is_digit d); [|reflexivity].
  rewrite rounds_cls; auto.
  - apply bt_price_tail.
  - intros y. rewrite bt_price_tail. discriminate.
Qed.

(** The matcher run on [price_re] is the greedy reader. *)
Lemma bt_price_re (x : str) : bt price_re x Some = price_rest x.
Proof.
  unfold price_re, price_symbol, Opt.
  change (bt (Seq (Alt (Alt (Chr "$") (Lit rupee)) Eps)
               (Seq price_digits (Seq (Star price_group) price_fraction))) x Some)
    with (let k := fun y => bt (Seq price_digits
                                 (Seq (Star price_group) price_fraction)) y Some in
          match match bt (Chr "$") x k with
                | Some z => Some z
                | None => bt (Lit rupee) x k
                end with
          | Some z => Some z
          | None => k x
          end).
  cbv zeta.
  set (k := fun y : str =>
              bt (Seq price_digits (Seq (Star price_group) price_fraction)) y Some).
  assert (Hk : forall y, k y =
            match y with
            | d :: t =>
                if is_digit d
                then Some (after_fraction (after_groups (drop_while is_digit t)))
                else None
            | [] => None
            end) by (intro y; apply bt_price_number).
  clearbody k.
  unfold price_rest, after_symbol.
  destruct x as [|c t].
  - cbn [bt Chr Lit rupee]. apply Hk.
  - unfold Chr at 1. cbn [bt].
    destruct (Ascii.eqb "$" c) eqn:Hd.
    + apply Ascii.eqb_eq in Hd. subst c.
      rewrite (Hk t).
      destruct t as [|d t2]; [apply Hk|].
      destruct (is_digit d); [reflexivity|]. apply Hk.
    + destruct (prefixb rupee (c :: t)) eqn:Hr.
      * unfold rupee in Hr |- *. cbn [prefixb] in Hr.
        destruct t as [|c2 [|c3 t2]];
          rewrite ?andb_false_r in Hr; try discriminate.
        apply andb_prop in Hr. destruct Hr as [H1 Hr].
        apply andb_prop in Hr. destruct Hr as [H2 Hr].
        apply andb_prop in Hr. destruct Hr as [H3 _].
        apply Ascii.eqb_eq in H1, H2, H3. subst c c2 c3.
        cbn [Lit bt Chr skipn].
        rewrite !Ascii.eqb_refl.
        rewrite (Hk t2).
        destruct t2 as [|d t3]; [apply Hk|].
        destruct (is_digit d); [reflexivity|]. apply Hk.
      * assert (Hl : bt (Lit rupee) (c :: t) k = None).
        { unfold rupee in Hr |- *. cbn [prefixb] in Hr. cbn [Lit bt Chr].
          destruct (Ascii.eqb (ascii_of_nat 226) c); [|reflexivity].
          destruct t as [|c2 t]; [reflexivity|].
          destruct (Ascii.eqb (ascii_of_nat 130) c2); [|reflexivity].
          destruct t as [|c3 t]; [reflexivity|].
          destruct (Ascii.eqb (ascii_of_nat 185) c3); [|reflexivity].
          discriminate. }
        rewrite Hl. exact (Hk (c :: t)).
Qed.

(* ================================================================== *)
(** * Facts about characters and string operations                    *)
(* ================================================================== *)

Lemma digit_not_space (c : ascii) : is_digit c = true -> is_space c = false.
Proof. by_cases_on_char c. Qed.

Lemma digit_not_comma (c : ascii) : is_digit c = true -> Ascii.eqb "," c = false.
Proof. by_cases_on_char c. Qed.

Lemma digit_not_dollar (c : ascii) : is_digit c = true -> Ascii.eqb "$" c = false.
Proof. by_cases_on_char c. Qed.

Lemma digit_not_rupee (c : ascii) :
  is_digit c = true -> Ascii.eqb (ascii_of_nat 226) c = false.
Proof. by_cases_on_char c. Qed.

Lemma str_replace_char_filter (a : ascii) (x : str) :
  str_replace [a] [] x = filter (fun c => negb (Ascii.eqb a c)) x.
Proof.
  unfold str_replace. induction x as [|c t IH]; [reflexivity|].
  cbn [replace_from prefixb filter length Nat.sub app].
  rewrite andb_true_r. destruct (Ascii.eqb a c); cbn [negb]; now rewrite IH.
Qed.

Lemma filter_id {A : Type} (f : A -> bool) (l : list A) :
  forallb f l = true -> filter f l = l.
Proof.
  induction l as [|a l IH]; simpl; [reflexivity|].
  intros H. apply andb_prop in H. destruct H as [Ha Hl].
  rewrite Ha. now rewrite IH.
Qed.

Lemma drop_while_none (p : ascii -> bool) (x : str) :
  match x with [] => True | c :: _ => p c = false end -> drop_while p x = x.
Proof. destruct x as [|c t]; simpl; [reflexivity|]. now intros ->. Qed.

Lemma drop_while_app (p : ascii -> bool) (x y : str) :
  forallb p x = true -> drop_while p (x ++ y) = drop_while p y.
Proof.
  induction x as [|c t IH]; simpl; [reflexivity|].
  intros H. apply andb_prop in H. destruct H as [-> Ht]. auto.
Qed.

Lemma no_space_app (x y : str) :
  no_space (x ++ y) = no_space x && no_space y.
Proof. apply forallb_app. Qed.

Lemma no_space_rev (x : str) : no_space (rev x) = no_space x.
Proof.
  unfold no_space. induction x as [|c t IH]; [reflexivity|].
  simpl. rewrite forallb_app, IH. simpl. rewrite andb_true_r. apply andb_comm.
Qed.

Lemma lstrip_no_space (x : str) : no_space x = true -> lstrip x = x.
Proof.
  intros H. apply drop_while_none. destruct x as [|c t]; [exact I|].
  simpl in H. apply andb_prop in H. destruct H as [H _].
  now apply negb_true_iff in H.
Qed.

Lemma strip_no_space (x : str) : no_space x = true -> strip x = x.
Proof.
  intros H. unfold strip. rewrite (lstrip_no_space x H).
  unfold rstrip. fold (lstrip (rev x)).
  rewrite lstrip_no_space by now rewrite no_space_rev.
  apply rev_involutive.
Qed.

Lemma collapse_no_space (x : str) :
  no_space x = true -> collapse_spaces x = x.
Proof.
  unfold collapse_spaces. induction x as [|c t IH]; [reflexivity|].
  simpl. intros H. apply andb_prop in H. destruct H as [Hc Ht].
  apply negb_true_iff in Hc. rewrite Hc. now rewrite IH.
Qed.

Lemma clean_text_no_space (x : str) : no_space x = true -> clean_text x = x.
Proof.
  intros H. unfold clean_text.
  assert (Hmap : forall a, is_space a = true ->
            map (fun c => if Ascii.eqb c a then SP else c) x = x).
  { intros a Ha. clear -H Ha. induction x as [|c t IH]; [reflexivity|].
    simpl in *. apply andb_prop in H. destruct H as [Hc Ht].
    rewrite IH by assumption.
    destruct (Ascii.eqb c a) eqn:E; [|reflexivity].
    apply Ascii.eqb_eq in E. subst c. rewrite Ha in Hc. discriminate. }
  rewrite (Hmap LF) by reflexivity. rewrite (Hmap CR) by reflexivity.
  rewrite strip_no_space by assumption. now apply collapse_no_space.
Qed.

Lemma digits_no_space (ds : str) : forallb is_digit ds = true -> no_space ds = true.
Proof.
  induction ds as [|c t IH]; [reflexivity|]. simpl.
  intros H. apply andb_prop in H. destruct H as [Hc Ht].
  rewrite (digit_not_space c Hc). simpl. auto.
Qed.

Lemma digits_no_comma (ds : str) :
  forallb is_digit ds = true -> forallb not_comma ds = true.
Proof.
  induction ds as [|c t IH]; [reflexivity|]. simpl.
  intros H. apply andb_prop in H. destruct H as [Hc Ht].
  unfold not_comma at 1. rewrite (digit_not_comma c Hc). simpl. auto.
Qed.

(* ================================================================== *)
(** * normalize_price                                                  *)
(* ================================================================== *)

Lemma matches_chr (c : ascii) (x : str) : matches (Chr c) x -> x = [c].
Proof.
  unfold Chr. intros H. inversion H; subst.
  match goal with E : Ascii.eqb _ _ = true |- _ => apply Ascii.eqb_eq in E; now subst end.
Qed.

Lemma matches_digit (x : str) :
  matches (Cls is_digit) x -> exists d, x = [d] /\ is_digit d = true.
Proof. intros H. inversion H; subst. eauto. Qed.

Lemma matches_price_symbol (x : str) :
  matches price_symbol x -> x = [] \/ x = py "$" \/ x = rupee.
Proof.
  unfold price_symbol, Opt. intros H.
  inversion H as [| | | ? ? ? H1 | ? ? ? H1 | |]; subst.
  - inversion H1 as [| | | ? ? ? H2 | ? ? ? H2 | |]; subst.
    + apply matches_chr in H2. subst. right; left; reflexivity.
    + right; right. unfold rupee in *. cbn [Lit] in H2.
      inversion H2 as [| |? ? ? ? Ha Hb| | | |]; subst.
      apply matches_chr in Ha. subst.
      inversion Hb as [| |? ? ? ? Hc Hd| | | |]; subst.
      apply matches_chr in Hc. subst.
      inversion Hd as [| |? ? ? ? He Hf| | | |]; subst.
      apply matches_chr in He. subst.
      inversion Hf; subst. reflexivity.
  - inversion H1; subst. now left.
Qed.

Lemma matches_star_cls (p : ascii -> bool) (x : str) :
  matches (Star (Cls p)) x -> forallb p x = true.
Proof.
  intros H. remember (Star (Cls p)) as r eqn:Hr.
  induction H as [| | | | | |a m1 m2 H1 _ H2 IH2]; try discriminate.
  - reflexivity.
  - inversion Hr; subst a. inversion H1; subst. simpl.
    rewrite IH2 by reflexivity. now rewrite andb_true_r.
Qed.

Lemma matches_price_digits (x : str) :
  matches price_digits x -> x <> [] /\ forallb is_digit x = true.
Proof.
  unfold price_digits, Plus. intros H.
  inversion H as [| |? ? ? ? Ha Hb| | | |]; subst.
  inversion Ha; subst. apply matches_star_cls in Hb.
  split; [discriminate|]. simpl. now rewrite Hb, andb_true_r.
Qed.

Lemma matches_price_group (x : str) :
  matches price_group x ->
  exists d1 d2 d3, x = ","%char :: d1 :: d2 :: d3 :: nil /\
    is_digit d1 = true /\ is_digit d2 = true /\ is_digit d3 = true.
Proof.
  unfold price_group. cbn [Rep]. intros H.
  inversion H as [| |? ? ? ? Ha Hb| | | |]; subst.
  apply matches_chr in Ha. subst.
  inversion Hb as [| |? ? ? ? Hc Hd| | | |]; subst.
  inversion Hd as [| |? ? ? ? He Hf| | | |]; subst.
  inversion Hf as [| |? ? ? ? Hg Hh| | | |]; subst.
  inversion Hh; subst.
  apply matches_digit in Hc, He, Hg.
  destruct Hc as (d1 & -> & H1), He as (d2 & -> & H2), Hg as (d3 & -> & H3).
  exists d1, d2, d3. auto.
Qed.

Lemma matches_price_groups (x : str) :
  matches (Star price_group) x ->
  forallb is_digit (filter not_comma x) = true.
Proof.
  intros H. remember (Star price_group) as r eqn:Hr.
  induction H as [| | | | | |a m1 m2 H1 _ H2 IH2]; try discriminate.
  - reflexivity.
  - inversion Hr; subst a. apply matches_price_group in H1.
    destruct H1 as (d1 & d2 & d3 & -> & Hd1 & Hd2 & Hd3).
    cbn [app filter].
    assert (Hn : forall d, is_digit d = true -> not_comma d = true)
      by (intros d Hd; unfold not_comma; now rewrite (digit_not_comma d Hd)).
    change (not_comma ",") with false.
    rewrite (Hn d1 Hd1), (Hn d2 Hd2), (Hn d3 Hd3).
    cbn [forallb]. rewrite Hd1, Hd2, Hd3. apply IH2. reflexivity.
Qed.

Lemma matches_price_fraction (x : str) :
  matches price_fraction x ->
  x = [] \/ exists d1 d2, x = "."%char :: d1 :: d2 :: nil /\
                          is_digit d1 = true /\ is_digit d2 = true.
Proof.
  unfold price_fraction, Opt. cbn [Rep]. intros H.
  inversion H as [| | | ? ? ? H1 | ? ? ? H1 | |]; subst.
  - right.
    inversion H1 as [| |? ? ? ? Ha Hb| | | |]; subst.
    apply matches_chr in Ha. subst.
    inversion Hb as [| |? ? ? ? Hc Hd| | | |]; subst.
    inversion Hd as [| |? ? ? ? He Hf| | | |]; subst.
    inversion Hf; subst.
    apply matches_digit in Hc, He.
    destruct Hc as (d1 & -> & H1'), He as (d2 & -> & H2').
    exists d1, d2. auto.
  - left. now inversion H1.
Qed.

(** A word of the price pattern, once its commas are removed, is a canonical
    price. *)
Lemma matches_price_re_canonical (m : str) :
  matches price_re m -> canonical_price (filter not_comma m).
Proof.
  unfold price_re. intros H.
  inversion H as [| |? ? sym r1 Hs H1| | | |]; subst.
  inversion H1 as [| |? ? ds r2 Hd H2| | | |]; subst.
  inversion H2 as [| |? ? gs fr Hg Hf| | | |]; subst.
  apply matches_price_symbol in Hs. apply matches_price_digits in Hd.
  apply matches_price_groups in Hg. apply matches_price_fraction in Hf.
  destruct Hd as [Hne Hds].
  exists sym, (ds ++ filter not_comma gs), fr.
  rewrite !filter_app.
  assert (Hsym : filter not_comma sym = sym).
  { destruct Hs as [->|[->| ->]]; reflexivity. }
  assert (Hfr : filter not_comma fr = fr).
  { destruct Hf as [->|(d1 & d2 & -> & Hd1 & Hd2)]; [reflexivity|].
    cbn [filter]. unfold not_comma.
    rewrite (digit_not_comma d1 Hd1), (digit_not_comma d2 Hd2). reflexivity. }
  rewrite Hsym, Hfr, (filter_id not_comma ds (digits_no_comma ds Hds)).
  rewrite <- !app_assoc. repeat split; auto.
  - destruct ds; [congruence|discriminate].
  - rewrite forallb_app, Hds, Hg. reflexivity.
Qed.

Lemma canonical_no_space (p : str) : canonical_price p -> no_space p = true.
Proof.
  intros (sym & ds & fr & -> & Hs & _ & Hds & Hf).
  rewrite !no_space_app.
  rewrite (digits_no_space ds Hds).
  assert (Hsym : no_space sym = true) by (destruct Hs as [->|[->| ->]]; reflexivity).
  rewrite Hsym.
  destruct Hf as [->|(d1 & d2 & -> & Hd1 & Hd2)]; [reflexivity|].
  cbn. rewrite (digit_not_space d1 Hd1), (digit_not_space d2 Hd2). reflexivity.
Qed.

Lemma canonical_no_comma (p : str) :
  canonical_price p -> forallb not_comma p = true.
Proof.
  intros (sym & ds & fr & -> & Hs & _ & Hds & Hf).
  rewrite !forallb_app, (digits_no_comma ds Hds).
  assert (Hsym : forallb not_comma sym = true)
    by (destruct Hs as [->|[->| ->]]; reflexivity).
  rewrite Hsym.
  destruct Hf as [->|(d1 & d2 & -> & Hd1 & Hd2)]; [reflexivity|].
  cbn. unfold not_comma.
  rewrite (digit_not_comma d1 Hd1), (digit_not_comma d2 Hd2). reflexivity.
Qed.

Lemma canonical_not_empty (p : str) : canonical_price p -> p <> [].
Proof.
  intros (sym & ds & fr & -> & _ & Hne & _) H.
  apply app_eq_nil in H. destruct H as [_ H].
  apply app_eq_nil in H. destruct H as [H _]. contradiction.
Qed.

(** On a canonical price the greedy reader uses up the whole text. *)
Lemma price_rest_canonical (p : str) : canonical_price p -> price_rest p = Some [].
Proof.
  intros (sym & ds & fr & -> & Hs & Hne & Hds & Hf).
  destruct ds as [|d ds]; [contradiction|].
  simpl in Hds. apply andb_prop in Hds. destruct Hds as [Hd Hds].
  assert (Htail : after_fraction (after_groups (drop_while is_digit (ds ++ fr)))
                  = []).
  { rewrite drop_while_app by assumption.
    destruct Hf as [->|(d1 & d2 & -> & Hd1 & Hd2)]; [reflexivity|].
    cbn [drop_while]. change (is_digit ".") with false.
    cbn [after_groups after_fraction].
    change (Ascii.eqb "." ".") with true. rewrite Hd1, Hd2. reflexivity. }
  unfold price_rest.
  assert (Hsym : after_symbol (sym ++ (d :: ds) ++ fr) = d :: ds ++ fr).
  { destruct Hs as [->|[->| ->]].
    - cbn [app after_symbol]. rewrite (digit_not_dollar d Hd).
      unfold rupee. cbn [prefixb]. rewrite (digit_not_rupee d Hd). reflexivity.
    - reflexivity.
    - reflexivity. }
  rewrite Hsym, Hd, Htail. reflexivity.
Qed.

Lemma re_search_canonical (p : str) :
  canonical_price p -> re_search price_re p = Some p.
Proof.
  intros H. pose proof (price_rest_canonical p H) as Hr.
  assert (Hm : re_match price_re p = Some (p, [])).
  { unfold re_match. rewrite bt_price_re, Hr. simpl.
    rewrite Nat.sub_0_r, firstn_all. reflexivity. }
  destruct p; cbn [re_search]; now rewrite Hm.
Qed.

(** [normalize_price] leaves a canonical price as it is. *)
Lemma normalize_price_canonical (p : str) :
  canonical_price p -> normalize_price (VStr p) = p.
Proof.
  intros H. unfold normalize_price.
  rewrite (clean_text_no_space p (canonical_no_space p H)).
  rewrite (re_search_canonical p H).
  change (py ",") with [","%char]. rewrite str_replace_char_filter.
  apply (filter_id not_comma). now apply canonical_no_comma.
Qed.

(** What [normalize_price] returns is empty or canonical. *)
Lemma normalize_price_shape (v : pyval) :
  normalize_price v = [] \/ canonical_price (normalize_price v).
Proof.
  destruct v as [x|]; [|now left]. unfold normalize_price.
  destruct (re_search price_re (clean_text x)) as [m|] eqn:E; [|now left].
  right. apply re_search_some in E. destruct E as (pre & post & _ & Hm & _ & _).
  change (py ",") with [","%char]. rewrite str_replace_char_filter.
  now apply matches_price_re_canonical.
Qed.

(** C6.  Price normalisation is idempotent: normalising the result of
    [normalize_price] on any string gives that result again. *)
Theorem normalize_price_idempotent (x : str) :
  normalize_price (VStr (normalize_price (VStr x))) = normalize_price (VStr x).
Proof.
  destruct (normalize_price_shape (VStr x)) as [H|H].
  - rewrite H. reflexivity.
  - now apply normalize_price_canonical.
Qed.

Example normalize_price_thousands :
  normalize_price (VStr (py "$1,234.50")) = py "$1234.50".
Proof. vm_compute. reflexivity. Qed.

Example normalize_price_no_price :
  normalize_price (VStr (py "no price here")) = [].
Proof. vm_compute. reflexivity. Qed.

Example normalize_price_first_of_two :
  normalize_price (VStr (py "MRP ₹ 12,345 /-  ₹1,999.00")) = py "12345".
Proof. vm_compute. reflexivity. Qed.

Example normalize_price_not_a_string : normalize_price VNaN = [].
Proof. reflexivity. Qed.


(* ================================================================== *)
(** * The sort key of a canonical price                                *)
(* ================================================================== *)

Lemma digit_lower (c : ascii) : is_digit c = true -> lower_char c = c.
Proof. by_cases_on_char c. Qed.

Lemma digit_not_minus (c : ascii) : is_digit c = true -> Ascii.eqb c "-" = false.
Proof. by_cases_on_char c. Qed.

Lemma digit_not_plus (c : ascii) : is_digit c = true -> Ascii.eqb c "+" = false.
Proof. by_cases_on_char c. Qed.

Lemma digit_not_letter (c : ascii) :
  is_digit c = true -> c <> "i"%char /\ c <> "n"%char.
Proof. by_cases_on_char c; split; discriminate. Qed.

Lemma plain_char (c : ascii) :
  is_digit c || Ascii.eqb "." c = true ->
  is_space c = false /\ Ascii.eqb "$" c = false /\
  Ascii.eqb (ascii_of_nat 226) c = false.
Proof. by_cases_on_char c; repeat split; reflexivity. Qed.

Lemma plain_no_space (x : str) : plain x = true -> no_space x = true.
Proof.
  unfold plain, no_space. induction x as [|c t IH]; [reflexivity|].
  cbn [forallb]. intros H. apply andb_prop in H. destruct H as [Hc Ht].
  destruct (plain_char c Hc) as (-> & _). simpl. auto.
Qed.

Lemma plain_no_dollar (x : str) :
  plain x = true -> filter (fun c => negb (Ascii.eqb "$" c)) x = x.
Proof.
  unfold plain. induction x as [|c t IH]; [reflexivity|].
  cbn [forallb filter]. intros H. apply andb_prop in H. destruct H as [Hc Ht].
  destruct (plain_char c Hc) as (_ & -> & _). cbn [negb]. now rewrite IH.
Qed.

Lemma plain_no_rupee (x : str) (new : str) :
  plain x = true -> replace_from rupee new 0 x = x.
Proof.
  unfold plain. induction x as [|c t IH]; [reflexivity|].
  cbn [forallb]. intros H. apply andb_prop in H. destruct H as [Hc Ht].
  destruct (plain_char c Hc) as (_ & _ & Hr).
  cbn [replace_from]. unfold rupee at 1. cbn [prefixb]. rewrite Hr.
  cbn [andb]. now rewrite IH.
Qed.

Lemma digits_plain (ds : str) : forallb is_digit ds = true -> plain ds = true.
Proof.
  unfold plain. induction ds as [|c t IH]; [reflexivity|].
  cbn [forallb]. intros H. apply andb_prop in H. destruct H as [-> Ht]. auto.
Qed.

Lemma plain_app (x y : str) : plain (x ++ y) = plain x && plain y.
Proof. apply forallb_app. Qed.

Lemma number_text_plain (ds fr : str) : number_text ds fr -> plain (ds ++ fr) = true.
Proof.
  intros (_ & Hds & Hf). rewrite plain_app, (digits_plain ds Hds).
  destruct Hf as [->|(d1 & d2 & -> & Hd1 & Hd2)]; [reflexivity|].
  unfold plain. cbn. now rewrite Hd1, Hd2.
Qed.

Lemma strip_symbols_canonical (p : str) :
  canonical_price p ->
  exists ds fr,
    str_replace rupee [] (str_replace (py "$") [] p) = ds ++ fr /\
    number_text ds fr.
Proof.
  intros (sym & ds & fr & -> & Hs & Hne & Hds & Hf).
  exists ds, fr. split; [|repeat split; assumption].
  pose proof (number_text_plain ds fr (conj Hne (conj Hds Hf))) as Hp.
  change (py "$") with ["$"%char]. rewrite str_replace_char_filter.
  rewrite filter_app, (plain_no_dollar _ Hp).
  unfold str_replace.
  destruct Hs as [->|[->| ->]].
  - apply plain_no_rupee, Hp.
  - apply plain_no_rupee, Hp.
  - change (filter (fun c => negb (Ascii.eqb "$" c)) rupee) with rupee.
    unfold rupee at 2. cbn [app replace_from]. unfold rupee at 1.
    cbn [prefixb]. rewrite !Ascii.eqb_refl. cbn [andb length Nat.sub app].
    apply plain_no_rupee, Hp.
Qed.

Lemma digitpart_digits (ds r : str) :
  forallb is_digit ds = true ->
  match r with
  | [] => True
  | c :: _ => is_digit c = false /\ Ascii.eqb c "_" = false
  end ->
  digitpart (ds ++ r) = (ds, r).
Proof.
  intros Hds Hr. induction ds as [|c t IH].
  - destruct r as [|c t]; [reflexivity|]. destruct Hr as [H1 H2].
    cbn [app digitpart]. now rewrite H1, H2.
  - cbn [forallb] in Hds. apply andb_prop in Hds. destruct Hds as [Hc Ht].
    cbn [app digitpart]. rewrite Hc, (IH Ht). reflexivity.
Qed.

Lemma parse_number_text (ds fr : str) :
  number_text ds fr -> exists q, parse_number (ds ++ fr) = Some q.
Proof.
  intros (Hne & Hds & Hf).
  destruct ds as [|d ds]; [contradiction|].
  assert (Hd : is_digit d = true)
    by (cbn [forallb] in Hds; apply andb_prop in Hds; tauto).
  unfold parse_number.
  assert (Hip : opt_digitpart ((d :: ds) ++ fr) = (d :: ds, fr)).
  { unfold opt_digitpart. cbn [app]. rewrite Hd.
    change (d :: ds ++ fr) with ((d :: ds) ++ fr).
    apply digitpart_digits; [assumption|].
    destruct Hf as [->|(d1 & d2 & -> & _)]; [exact I|]. split; reflexivity. }
  rewrite Hip.
  destruct Hf as [->|(d1 & d2 & -> & Hd1 & Hd2)].
  - cbn. eauto.
  - change (Ascii.eqb "." ".") with true. cbv iota.
    assert (Hfp : opt_digitpart [d1; d2] = ([d1; d2], [])).
    { unfold opt_digitpart. rewrite Hd1.
      change [d1; d2] with ([d1; d2] ++ []).
      apply digitpart_digits; [|exact I]. cbn. now rewrite Hd1, Hd2. }
    rewrite Hfp. cbn. eauto.
Qed.

Lemma py_float_number_text (ds fr : str) :
  number_text ds fr -> exists q, py_float (ds ++ fr) = Some (FNum q).
Proof.
  intros H. pose proof (number_text_plain ds fr H) as Hp.
  destruct (parse_number_text ds fr H) as [q Hq].
  destruct H as (Hne & Hds & Hf).
  destruct ds as [|d ds]; [contradiction|].
  assert (Hd : is_digit d = true)
    by (cbn [forallb] in Hds; apply andb_prop in Hds; tauto).
  unfold py_float. rewrite (strip_no_space _ (plain_no_space _ Hp)).
  cbn [app opt_sign]. rewrite (digit_not_minus d Hd), (digit_not_plus d Hd).
  cbn [app] in Hq. rewrite Hq.
  assert (Hw : forall w0 w, w0 = "i"%char \/ w0 = "n"%char ->
            str_eqb (lower (d :: ds ++ fr)) (w0 :: w) = false).
  { intros w0 w Hw0. unfold str_eqb.
    destruct (str_eq_dec (lower (d :: ds ++ fr)) (w0 :: w)) as [E|]; [|reflexivity].
    cbn [lower map] in E. inversion E as [[E1 E2]].
    rewrite (digit_lower d Hd) in E1.
    destruct (digit_not_letter d Hd) as [Hi Hn].
    destruct Hw0; subst; contradiction. }
  change (py "inf") with ("i"%char :: py "nf").
  change (py "infinity") with ("i"%char :: py "nfinity").
  change (py "nan") with ("n"%char :: py "an").
  rewrite (Hw "i"%char (py "nf")), (Hw "i"%char (py "nfinity")),
    (Hw "n"%char (py "an")) by auto.
  cbn. eauto.
Qed.

(** The sort key of a canonical price is a number: [float] does not raise. *)
Lemma price_key_canonical (p : str) :
  canonical_price p -> exists q, price_key p = Some (FNum q).
Proof.
  intros H. unfold price_key.
  destruct (strip_symbols_canonical p H) as (ds & fr & -> & Hn).
  now apply py_float_number_text.
Qed.

(* ================================================================== *)
(** * Sorting by the key                                               *)
(* ================================================================== *)

Lemma float_le_refl (a : pyfloat) : (exists q, a = FNum q) -> float_le a a.
Proof. intros [q ->]. simpl. apply Qle_refl. Qed.

Lemma float_le_trans (a b c : pyfloat) :
  float_le a b -> float_le b c -> float_le a c.
Proof.
  destruct a, b, c; simpl; try contradiction. apply Qle_trans.
Qed.

Lemma float_lt_le (p q : Q) : float_lt (FNum p) (FNum q) = true -> float_le (FNum p) (FNum q).
Proof.
  simpl. intros H. apply negb_true_iff in H.
  destruct (Qlt_le_dec p q) as [Hlt|Hle].
  - now apply Qlt_le_weak.
  - apply Qle_bool_iff in Hle. congruence.
Qed.

Lemma float_nlt_le (p q : Q) : float_lt (FNum p) (FNum q) = false -> float_le (FNum q) (FNum p).
Proof.
  simpl. intros H. apply negb_false_iff in H. now apply Qle_bool_iff.
Qed.

Lemma insert_by_key_perm (x : pyfloat * str) (l : list (pyfloat * str)) :
  Permutation (insert_by_key x l) (x :: l).
Proof.
  induction l as [|y t IH]; simpl; [reflexivity|].
  destruct (float_lt (fst y) (fst x)); [|reflexivity].
  rewrite IH. apply perm_swap.
Qed.

Lemma sort_by_key_perm (l : list (pyfloat * str)) : Permutation (sort_by_key l) l.
Proof.
  induction l as [|x t IH]; simpl; [reflexivity|].
  rewrite insert_by_key_perm. now constructor.
Qed.

Lemma insert_by_key_sorted (x : pyfloat * str) (l : list (pyfloat * str)) :
  num_key x -> Forall num_key l ->
  StronglySorted pair_le l -> StronglySorted pair_le (insert_by_key x l).
Proof.
  intros [qx Hx] Hnum Hs. induction Hs as [|y t Hst IH Hy]; simpl.
  - repeat constructor.
  - inversion Hnum as [|? ? [qy Hqy] Hnt]; subst.
    destruct (float_lt (fst y) (fst x)) eqn:E.
    + constructor; [auto|].
      apply (Permutation_Forall (Permutation_sym (insert_by_key_perm x t))).
      constructor; [|assumption].
      unfold pair_le. rewrite Hx, Hqy in *. now apply float_lt_le.
    + assert (Hxy : pair_le x y).
      { unfold pair_le. rewrite Hx, Hqy in *. now apply float_nlt_le. }
      constructor; [now constructor|].
      constructor; [assumption|].
      eapply Forall_impl; [|exact Hy].
      intros z Hz. unfold pair_le in *. eapply float_le_trans; eauto.
Qed.

Lemma sort_by_key_sorted (l : list (pyfloat * str)) :
  Forall num_key l -> StronglySorted pair_le (sort_by_key l).
Proof.
  induction l as [|x t IH]; simpl; intros H; [constructor|].
  inversion H; subst.
  apply insert_by_key_sorted; auto.
  apply (Permutation_Forall (Permutation_sym (sort_by_key_perm t))). assumption.
Qed.

Lemma with_keys_canonical (l : list str) :
  Forall canonical_price l ->
  exists kl, with_keys l = Some kl /\ map snd kl = l /\
             Forall num_key kl /\
             Forall (fun kp => price_key (snd kp) = Some (fst kp)) kl.
Proof.
  induction 1 as [|p t Hp Ht IH].
  - exists []. repeat split; constructor.
  - destruct IH as (kt & Hk & Hm & Hn & Hf).
    destruct (price_key_canonical p Hp) as [q Hq].
    exists ((FNum q, p) :: kt). simpl. rewrite Hq, Hk, Hm.
    repeat split; constructor; auto. now exists q.
Qed.

Lemma sorted_map_snd (kl : list (pyfloat * str)) :
  Forall (fun kp => price_key (snd kp) = Some (fst kp)) kl ->
  StronglySorted pair_le kl -> StronglySorted price_le (map snd kl).
Proof.
  intros Hf Hs. induction Hs as [|y t Hst IH Hy]; simpl; [constructor|].
  inversion Hf as [|? ? Hky Hft]; subst.
  constructor; [auto|].
  rewrite Forall_forall in *. intros z Hz.
  apply in_map_iff in Hz. destruct Hz as (kz & <- & Hkz).
  unfold price_le. rewrite Hky, (Hft kz Hkz). simpl. now apply Hy.
Qed.

(** [sorted] does not raise on canonical prices; it keeps the elements and
    leaves them in the order of their values. *)
Lemma sorted_by_price_canonical (l : list str) :
  Forall canonical_price l ->
  exists s, sorted_by_price l = Some s /\ Permutation s l /\
            StronglySorted price_le s.
Proof.
  intros H. destruct (with_keys_canonical l H) as (kl & Hk & Hm & Hn & Hf).
  exists (map snd (sort_by_key kl)). unfold sorted_by_price. rewrite Hk.
  split; [reflexivity|]. split.
  - rewrite <- Hm. apply Permutation_map, sort_by_key_perm.
  - apply sorted_map_snd.
    + apply (Permutation_Forall (Permutation_sym (sort_by_key_perm kl))), Hf.
    + now apply sort_by_key_sorted.
Qed.

Lemma sorted_last {A : Type} (R : A -> A -> Prop) (l : list A) (d : A) :
  StronglySorted R l ->
  forall x, In x l -> x = last l d \/ R x (last l d).
Proof.
  induction 1 as [|y t Hst IH Hy]; intros x Hx; [contradiction|].
  destruct t as [|z t'].
  - destruct Hx as [->|[]]. now left.
  - change (last (y :: z :: t') d) with (last (z :: t') d).
    destruct Hx as [->|Hx].
    + right. rewrite Forall_forall in Hy. apply Hy.
      destruct (exists_last (l:=z :: t') ltac:(discriminate)) as (l' & a & E).
      rewrite E, last_last. apply in_or_app. right. now left.
    + now apply IH.
Qed.

Lemma last_in {A : Type} (l : list A) (d : A) : l <> [] -> In (last l d) l.
Proof.
  intros H. destruct (exists_last H) as (l' & a & ->).
  rewrite last_last. apply in_or_app. right. now left.
Qed.

Lemma price_le_refl (p : str) : canonical_price p -> price_le p p.
Proof.
  intros H. destruct (price_key_canonical p H) as [q Hq].
  unfold price_le. rewrite Hq. simpl. apply Qle_refl.
Qed.

(* ================================================================== *)
(** * scrape_prices                                                    *)
(* ================================================================== *)

(** The prices kept from a container: the normalised fragments that are
    neither empty nor the exact string "$0.00". *)
Lemma prices_of_spec (fragments : list str) (p : str) :
  In p (prices_of fragments) <->
  exists text, In text fragments /\ p = normalize_price (VStr text) /\
               p <> [] /\ p <> py "$0.00".
Proof.
  unfold prices_of. rewrite filter_In, in_map_iff. split.
  - intros [(text & <- & Hin) Hk]. exists text.
    apply andb_prop in Hk. destruct Hk as [H1 H2].
    repeat split; auto.
    + intros E. rewrite E in H1. discriminate.
    + intros E. unfold str_eqb in H2.
      destruct (str_eq_dec _ _); [discriminate|contradiction].
  - intros (text & Hin & -> & H1 & H2). split; [eauto|].
    apply andb_true_intro. split.
    + destruct (normalize_price (VStr text)); [contradiction|reflexivity].
    + unfold str_eqb. destruct (str_eq_dec _ _); [contradiction|reflexivity].
Qed.

Lemma prices_of_canonical (fragments : list str) (p : str) :
  In p (prices_of fragments) -> canonical_price p.
Proof.
  intros H. apply prices_of_spec in H. destruct H as (text & _ & -> & Hne & _).
  destruct (normalize_price_shape (VStr text)); [contradiction|assumption].
Qed.

Section Extraction_Facts.

Variable set_iter : list str -> list str.

(** Iterating over [set(l)] visits the elements of [l]. *)
Hypothesis set_iter_in : forall l x, In x (set_iter l) <-> In x l.

Lemma sorted_container (c : list str) :
  exists s, sorted_by_price (set_iter (prices_of c)) = Some s /\
            (forall p, In p s <-> In p (prices_of c)) /\
            StronglySorted price_le s.
Proof.
  assert (Hc : Forall canonical_price (set_iter (prices_of c))).
  { apply Forall_forall. intros p Hp. apply (proj1 (set_iter_in _ _)) in Hp.
    eapply prices_of_canonical; eauto. }
  destruct (sorted_by_price_canonical _ Hc) as (s & Hs & Hperm & Hsorted).
  exists s. repeat split; auto.
  - intros Hp. apply (proj1 (set_iter_in _ _)). eapply Permutation_in; eauto.
  - intros Hp. apply (proj2 (set_iter_in _ _)) in Hp.
    eapply Permutation_in; [apply Permutation_sym|]; eauto.
Qed.

(** A container without prices leaves the loop going. *)
Lemma scan_containers_skip (c : list str) (rest : list (list str)) :
  prices_of c = [] ->
  scan_containers set_iter (c :: rest) None None
  = scan_containers set_iter rest None None.
Proof.
  intros Hc. destruct (sorted_container c) as (s & Hs & Hin & _).
  cbn [scan_containers]. rewrite Hs.
  destruct s as [|p s]; [reflexivity|].
  exfalso. rewrite Hc in Hin. apply (Hin p). now left.
Qed.

(** A container with prices ends the loop with its lowest and highest. *)
Lemma scan_containers_take (c : list str) (rest : list (list str)) :
  prices_of c <> [] ->
  exists sale regular,
    scan_containers set_iter (c :: rest) None None
    = Some (Some sale, Some regular) /\
    sale <> [] /\ regular <> [] /\
    lowest_and_highest (prices_of c) sale regular.
Proof.
  intros Hc. destruct (sorted_container c) as (s & Hs & Hin & Hsorted).
  assert (Hcan : forall p, In p s -> canonical_price p)
    by (intros p Hp; apply Hin in Hp; eapply prices_of_canonical; eauto).
  cbn [scan_containers]. rewrite Hs.
  destruct s as [|p [|q t]].
  - exfalso. destruct (prices_of c) as [|p ps]; [contradiction|].
    apply (Hin p). now left.
  - exists p, p.
    assert (Hp : canonical_price p) by (apply Hcan; now left).
    pose proof (canonical_not_empty p Hp) as Hne.
    assert (Hinp : In p (prices_of c)) by (apply Hin; now left).
    destruct p as [|a p']; [contradiction|].
    split; [reflexivity|]. split; [assumption|]. split; [assumption|].
    split; [assumption|]. split; [assumption|].
    intros x Hx. apply Hin in Hx. destruct Hx as [<-|[]].
    split; now apply price_le_refl.
  - set (r := last (q :: t) p).
    assert (Hr : In r (q :: t)) by (apply last_in; discriminate).
    assert (Hp : canonical_price p) by (apply Hcan; now left).
    assert (Hrc : canonical_price r) by (apply Hcan; now right).
    pose proof (canonical_not_empty p Hp) as Hne.
    pose proof (canonical_not_empty r Hrc) as Hrne.
    exists p, r.
    assert (Ht : truthy (Some p) && truthy (Some r) = true).
    { destruct p; [contradiction|]. destruct r; [contradiction|]. reflexivity. }
    rewrite Ht. split; [reflexivity|]. split; [assumption|]. split; [assumption|].
    split; [apply Hin; now left|]. split; [apply Hin; now right|].
    intros x Hx. apply Hin in Hx. split.
    + inversion Hsorted as [|? ? _ Hall]; subst.
      destruct Hx as [<-|Hx]; [now apply price_le_refl|].
      rewrite Forall_forall in Hall. now apply Hall.
    + change r with (last (p :: q :: t) p).
      destruct (sorted_last price_le (p :: q :: t) p Hsorted x Hx) as [->|Hle];
        [|exact Hle].
      apply price_le_refl. exact Hrc.
Qed.

Lemma scan_containers_spec (containers : list (list str)) :
  (Forall (fun c => prices_of c = []) containers /\
   scan_containers set_iter containers None None = Some (None, None))
  \/
  (exists before c after sale regular,
     containers = before ++ c :: after /\
     Forall (fun c' => prices_of c' = []) before /\
     prices_of c <> [] /\
     scan_containers set_iter containers None None
     = Some (Some sale, Some regular) /\
     sale <> [] /\ regular <> [] /\
     lowest_and_highest (prices_of c) sale regular).
Proof.
  induction containers as [|c rest IH].
  - left. split; [constructor|reflexivity].
  - destruct (prices_of c) as [|p0 ps] eqn:Hc.
    + rewrite (scan_containers_skip c rest Hc).
      destruct IH as [[Hall Hscan]|(before & c' & after & sale & regular &
                                    -> & Hb & Hc' & Hscan & Hrest)].
      * left. split; [constructor; assumption|assumption].
      * right. exists (c :: before), c', after, sale, regular.
        split; [reflexivity|]. split; [constructor; assumption|].
        split; [assumption|]. split; [assumption|]. exact Hrest.
    + right.
      destruct (scan_containers_take c rest) as (sale & regular & Hscan & Hrest).
      { rewrite Hc. discriminate. }
      exists [], c, rest, sale, regular.
      split; [reflexivity|]. split; [constructor|].
      split; [rewrite Hc; discriminate|]. split; [assumption|]. exact Hrest.
Qed.



End Extraction_Facts.

(* ================================================================== *)
(** * scrape_availability                                              *)
(* ================================================================== *)







(* ================================================================== *)
(** * Sitemap discovery: removing duplicates                           *)
(* ================================================================== *)

Lemma str_eqb_eq (a b : str) : str_eqb a b = true <-> a = b.
Proof.
  unfold str_eqb. destruct (str_eq_dec a b); split; auto; discriminate.
Qed.

Lemma existsb_str_eqb (k : str) (d : list str) :
  existsb (str_eqb k) d = true <-> In k d.
Proof.
  rewrite existsb_exists. split.
  - intros (x & Hin & E). apply str_eqb_eq in E. now subst.
  - intros H. exists k. split; [assumption|]. now apply str_eqb_eq.
Qed.


Lemma add_keys_in (keys d : list str) (u : str) :
  In u (fold_left add_key keys d) <-> In u d \/ In u keys.
Proof.
  revert d. induction keys as [|k t IH]; intros d; simpl; [tauto|].
  rewrite IH. unfold add_key. destruct (existsb (str_eqb k) d) eqn:E.
  - apply existsb_str_eqb in E. split; [tauto|].
    intros [H|[<-|H]]; auto.
  - rewrite in_app_iff. simpl. tauto.
Qed.

Lemma add_keys_nodup (keys d : list str) :
  NoDup d -> NoDup (fold_left add_key keys d).
Proof.
  revert d. induction keys as [|k t IH]; intros d Hd; simpl; [assumption|].
  apply IH. unfold add_key. destruct (existsb (str_eqb k) d) eqn:E; [assumption|].
  apply NoDup_app; [assumption|repeat constructor; auto|].
  intros x Hx [<-|[]].
  apply existsb_str_eqb in Hx. congruence.
Qed.


(* ================================================================== *)
(** * The fetcher and the crawl                                        *)
(* ================================================================== *)

Section Crawl_Facts.

Variable response : Type.
Variable net : nat -> str -> option response.
Variable sitemap_locs : response -> list str.
Variable parse_html : response -> soup.
Variable today : str.
Variable set_iter : list str -> list str.

Hypothesis set_iter_in : forall l x, In x (set_iter l) <-> In x l.

(** The fetcher returns the first answer that is not a failure among at
    most [MAX_RETRIES] requests, and [None] after [MAX_RETRIES] failures,
    having paused 2 and 4 seconds in between. *)
Lemma requests_get_with_retry_spec (url : str) (w : world) :
  fst (requests_get_with_retry net url w) = first_answer net url (requests w) /\
  requests w < requests (snd (requests_get_with_retry net url w))
    <= requests w + MAX_RETRIES /\
  (first_answer net url (requests w) = None ->
   snd (requests_get_with_retry net url w)
   = {| requests := requests w + MAX_RETRIES;
        slept := slept w ++ [inject_Z 2; inject_Z 4] |}).
Proof.
  unfold requests_get_with_retry, first_answer, MAX_RETRIES.
  cbn [attempts]. unfold MAX_RETRIES, RETRY_BACKOFF, bind, requests_get, sleep, ret.
  cbn [Nat.eqb requests slept].
  destruct (net (requests w) url) as [r|]; cbn [requests slept fst snd];
    [repeat split; try reflexivity; try lia; intro; discriminate|].
  destruct (net (S (requests w)) url) as [r|]; cbn [requests slept fst snd];
    [repeat split; try reflexivity; try lia; intro; discriminate|].
  destruct (net (S (S (requests w))) url) as [r|]; cbn [requests slept fst snd];
    repeat split; try reflexivity; try lia; try (intro; discriminate).
  intros _. rewrite <- app_assoc. f_equal. lia.
Qed.

Lemma first_answer_none (url : str) (n : nat) :
  first_answer net url n = None <->
  net n url = None /\ net (S n) url = None /\ net (S (S n)) url = None.
Proof.
  unfold first_answer.
  destruct (net n url); [split; [discriminate|intros (H & _); discriminate]|].
  destruct (net (S n) url);
    [split; [discriminate|intros (_ & H & _); discriminate]|].
  tauto.
Qed.

Lemma scrape_page_total (sp : soup) (url : str) :
  exists row, scrape_page today set_iter sp url = Some row /\ Link row = url.
Proof.
  unfold scrape_page, scrape_prices.
  destruct (scan_containers_spec set_iter set_iter_in (price_containers sp))
    as [[_ Hscan]|(before & c & after & sale & regular &
                   _ & _ & _ & Hscan & _)]; rewrite Hscan; eauto.
Qed.

Lemma scrape_products_spec (urls : list str) :
  forall results errors w,
  exists new_rows failed w',
    scrape_products net parse_html today set_iter urls results errors w
    = (Some (results ++ new_rows, errors ++ failed), w') /\
    length new_rows + length failed = length urls /\
    (forall u, In u urls <-> In u failed \/ In u (map Link new_rows)) /\
    (forall u, In u failed ->
       exists n, net n u = None /\ net (S n) u = None /\ net (S (S n)) u = None) /\
    (forall u, In u urls -> (forall n, net n u = None) -> In u failed).
Proof.
  induction urls as [|url rest IH]; intros results errors w.
  - exists [], [], w. cbn. rewrite !app_nil_r.
    repeat split; try tauto; intros u []; contradiction.
  - cbn [scrape_products]. unfold bind at 1.
    destruct (requests_get_with_retry_spec url w) as (Hfst & _ & _).
    destruct (requests_get_with_retry net url w) as [resp w1].
    cbn [fst] in Hfst.
    destruct resp as [r|].
    + destruct (scrape_page_total (parse_html r) url) as (row & Hrow & Hlink).
      rewrite Hrow. unfold bind, sleep.
      destruct (IH (results ++ [row]) errors
                  {| requests := requests w1; slept := slept w1 ++ [(1 # 2)%Q] |})
        as (new_rows & failed & w' & Hrun & Hlen & Hall & Hfail & Hdead).
      exists (row :: new_rows), failed, w'.
      rewrite Hrun, <- app_assoc. split; [reflexivity|].
      split; [simpl; lia|]. split; [|split].
      * intros u. cbn [In map]. rewrite Hlink, Hall. tauto.
      * exact Hfail.
      * intros u [<-|Hu] Hnone.
        -- exfalso. symmetry in Hfst. unfold first_answer in Hfst.
           rewrite !Hnone in Hfst. discriminate.
        -- now apply Hdead.
    + destruct (IH results (errors ++ [url]) w1)
        as (new_rows & failed & w' & Hrun & Hlen & Hall & Hfail & Hdead).
      exists new_rows, (url :: failed), w'.
      rewrite Hrun, <- app_assoc. split; [reflexivity|].
      split; [simpl; lia|]. split; [|split].
      * intros u. cbn [In]. rewrite Hall. tauto.
      * intros u [<-|Hu]; [|now apply Hfail].
        exists (requests w). apply first_answer_none. now symmetry.
      * intros u [<-|Hu] Hnone; [now left|right; now apply Hdead].
Qed.

(** The product URLs are collected in the order of the sitemaps: those of a
    sitemap come before those of the sitemaps after it, and a sitemap that
    cannot be loaded contributes nothing. *)
Lemma collect_product_urls_in_order (sitemaps : list str) :
  forall acc w,
    fst (collect_product_urls net sitemap_locs sitemaps acc w)
    = acc ++ fst (collect_product_urls net sitemap_locs sitemaps [] w).
Proof.
  induction sitemaps as [|sm rest IH]; intros acc w; cbn [collect_product_urls].
  - unfold ret. cbn. now rewrite app_nil_r.
  - unfold bind. destruct (requests_get_with_retry net sm w) as [[r|] w1].
    + rewrite IH. rewrite (IH ([] ++ _)). now rewrite app_assoc.
    + apply IH.
Qed.

Lemma collect_product_urls_cons (sm : str) (rest : list str) (w : world) :
  fst (collect_product_urls net sitemap_locs (sm :: rest) [] w)
  = match fst (requests_get_with_retry net sm w) with
    | Some r => filter (contains (py "/products/")) (sitemap_locs r)
    | None => []
    end
    ++ fst (collect_product_urls net sitemap_locs rest []
              (snd (requests_get_with_retry net sm w))).
Proof.
  cbn [collect_product_urls]. unfold bind.
  destruct (requests_get_with_retry net sm w) as [[r|] w1]; cbn [fst snd].
  - now rewrite collect_product_urls_in_order.
  - reflexivity.
Qed.

(** C9.  A fetch that fails [MAX_RETRIES] times in a row returns [None]
    after exactly that many requests; the crawl then records the URL in
    [errors] and goes on: from any list of product URLs it returns a list of
    rows and a list of errors that together account for every URL, each
    error having met three consecutive failures and every URL that always
    fails being among the errors.  The script ends with a snapshot, a report
    and the errors whenever the master sitemap could be fetched. *)
Theorem page_failures_are_recorded :
  (forall url w,
     first_answer net url (requests w) = None ->
     requests_get_with_retry net url w
     = (None, {| requests := requests w + MAX_RETRIES;
                 slept := slept w ++ [inject_Z 2; inject_Z 4] |})) /\
  (forall urls w,
     exists results errors w',
       scrape_products net parse_html today set_iter urls [] [] w
       = (Some (results, errors), w') /\
       length results + length errors = length urls /\
       (forall u, In u urls <-> In u errors \/ In u (map Link results)) /\
       (forall u, In u errors ->
          exists n, net n u = None /\ net (S n) u = None /\
                    net (S (S n)) u = None) /\
       (forall u, In u urls -> (forall n, net n u = None) -> In u errors)) /\
  (forall old w,
     first_answer net MAIN_SITEMAP_URL (requests w) <> None ->
     exists snapshot report errors,
       fst (main net sitemap_locs parse_html today set_iter old w)
       = Done snapshot report errors).
Proof.
  split; [|split].
  - intros url w H.
    destruct (requests_get_with_retry_spec url w) as (Hfst & _ & Hsnd).
    specialize (Hsnd H). rewrite H in Hfst.
    destruct (requests_get_with_retry net url w) as [r w']. simpl in *.
    now subst.
  - intros urls w.
    destruct (scrape_products_spec urls [] [] w)
      as (new_rows & failed & w' & Hrun & Hrest).
    exists new_rows, failed, w'. split; [exact Hrun|exact Hrest].
  - intros old w Hmaster. unfold main, bind.
    destruct (requests_get_with_retry_spec MAIN_SITEMAP_URL w) as (Hfst & _ & _).
    destruct (requests_get_with_retry net MAIN_SITEMAP_URL w) as [master w1].
    cbn [fst] in Hfst. destruct master as [m|]; [|congruence].
    destruct (collect_product_urls net sitemap_locs (sitemap_urls sitemap_locs m) [] w1)
      as [all_urls w2].
    destruct (scrape_products_spec (fromkeys all_urls) [] [] w2)
      as (new_rows & failed & w' & Hrun & _).
    rewrite Hrun. cbn. eauto.
Qed.

End Crawl_Facts.

(* ================================================================== *)
(** * Links and the two comparisons                                    *)
(* ================================================================== *)

Lemma same_letter_lower (a b : ascii) : same_letter a b -> lower_char a = lower_char b.
Proof.
  assert (Hup : forall c d, is_upper c = true ->
            nat_of_ascii d = nat_of_ascii c + 32 ->
            lower_char c = d /\ lower_char d = d).
  { intros c d Hc Hd. unfold lower_char, is_upper in *. rewrite Hc.
    rewrite <- Hd, ascii_nat_embedding. split; [reflexivity|].
    apply andb_prop in Hc. destruct Hc as [H1 H2].
    apply Nat.leb_le in H1, H2.
    assert (E : (nat_of_ascii d <=? 90) = false) by (apply Nat.leb_gt; lia).
    rewrite E, andb_false_r. reflexivity. }
  intros [->|[(Hu & Hn)|(Hu & Hn)]]; [reflexivity| |].
  - destruct (Hup a b Hu Hn) as [-> ->]. reflexivity.
  - destruct (Hup b a Hu Hn) as [-> ->]. reflexivity.
Qed.

Lemma lower_same_letters (x y : str) : Forall2 same_letter x y -> lower x = lower y.
Proof.
  induction 1 as [|a b x y Hab _ IH]; [reflexivity|].
  cbn [lower map]. rewrite (same_letter_lower a b Hab). f_equal. exact IH.
Qed.

Lemma rev_repeat {A : Type} (a : A) (n : nat) : rev (repeat a n) = repeat a n.
Proof.
  induction n as [|n IH]; [reflexivity|].
  cbn [repeat rev]. rewrite IH. symmetry. apply repeat_cons.
Qed.

Lemma rstrip_char_repeat (c : ascii) (x : str) (n : nat) :
  rstrip_char c (x ++ repeat c n) = rstrip_char c x.
Proof.
  unfold rstrip_char. rewrite rev_app_distr, rev_repeat.
  rewrite drop_while_app; [reflexivity|].
  induction n as [|n IH]; [reflexivity|].
  cbn [repeat forallb]. now rewrite Ascii.eqb_refl.
Qed.

Lemma lower_slashes (n : nat) : lower (repeat "/"%char n) = repeat "/"%char n.
Proof. induction n as [|n IH]; [reflexivity|]. cbn [repeat lower map]. f_equal. exact IH. Qed.

(** Links that differ only by letter case or trailing slashes have the same
    normal form. *)
Lemma normalize_link_same_product (x y : str) :
  same_product_link x y -> App.normalize_link x = App.normalize_link y.
Proof.
  intros (x0 & y0 & n & m & -> & -> & H).
  unfold App.normalize_link, lower. rewrite !map_app.
  fold (lower x0) (lower y0) (lower (repeat "/"%char n)) (lower (repeat "/"%char m)).
  rewrite !lower_slashes, !rstrip_char_repeat.
  now rewrite (lower_same_letters x0 y0 H).
Qed.

Lemma safe_float_blank : App.safe_float (VStr []) = None.
Proof. reflexivity. Qed.

(** A row whose previous prices are blank shows no change. *)
Lemma no_changes_without_old_prices (c : product) :
  App.has_changes {| App.current := c; App.Sale_Price_old := VStr [];
                     App.Regular_Price_old := VStr [] |} = false.
Proof.
  unfold App.has_changes, App.format_price_changes.
  cbn [App.current App.Sale_Price_old App.Regular_Price_old].
  rewrite safe_float_blank.
  destruct (App.safe_float (Regular_Price c));
    destruct (App.safe_float (Sale_Price c)); reflexivity.
Qed.

(** In the dashboard a joined row is shown as changed exactly when, for the
    regular or for the sale price, both sides parse to a number and the
    numbers differ. *)
Lemma has_changes_spec (row : App.merged_row) :
  App.has_changes row = true <->
  (exists n o, App.safe_float (Regular_Price (App.current row)) = Some n /\
               App.safe_float (App.Regular_Price_old row) = Some o /\
               float_ne n o = true)
  \/
  (exists n o, App.safe_float (Sale_Price (App.current row)) = Some n /\
               App.safe_float (App.Sale_Price_old row) = Some o /\
               float_ne n o = true).
Proof.
  unfold App.has_changes, App.format_price_changes.
  destruct (App.safe_float (Regular_Price (App.current row))) as [rn|];
    destruct (App.safe_float (App.Regular_Price_old row)) as [ro|];
    destruct (App.safe_float (Sale_Price (App.current row))) as [sn|];
    destruct (App.safe_float (App.Sale_Price_old row)) as [so|];
    try destruct (float_ne rn ro) eqn:Er; try destruct (float_ne sn so) eqn:Es;
    cbn [app]; split; intros H; try reflexivity; try discriminate;
    try (left; exists rn, ro; auto; fail);
    try (right; exists sn, so; auto; fail);
    destruct H as [(n & o & H1 & H2 & H3)|(n & o & H1 & H2 & H3)];
    try discriminate; inversion H1; inversion H2; subst; congruence.
Qed.

(** In the scraper a product whose previous crawl found no price and whose
    current crawl finds one is logged as a price change, whatever its link
    and its price. *)
Lemma scraper_logs_new_price_as_change (link p : str) :
  p <> [] ->
  price_changes (compare (Frame (reloaded [row_of link [] []])) [row_of link p p])
  = [(reload (row_of link [] []), row_of link p p)].
Proof.
  intros Hp.
  assert (Hl : str_eqb link link = true) by now apply str_eqb_eq.
  unfold compare, reloaded, drop_duplicates, merge_inner.
  cbn [fold_left existsb app map flat_map filter reload row_of Link
       Sale_Price Regular_Price Title SKU Availability Date read_cell].
  rewrite Hl. cbn [app filter]. unfold price_changed.
  cbn [fst snd Sale_Price Regular_Price py_ne py_truthy orb andb price_changes].
  destruct p; [contradiction|reflexivity].
Qed.

(** In the dashboard a baseline without a [Title] column never shows a
    change for a joined row: the rows listed as changed are those that have
    no previous record at all. *)
Lemma blanked_baseline_shows_no_joined_change
    (current_rows : list product) (b : App.baseline) (pg : App.page) :
  App.has_title b = false ->
  App.dashboard current_rows b = Some pg ->
  forall r, In r (App.filtered_changes pg) ->
    App.Sale_Price_old r = VNaN /\ App.Regular_Price_old r = VNaN.
Proof.
  intros Ht Hd r Hr. unfold App.dashboard in Hd.
  destruct current_rows as [|c0 cs]; [discriminate|].
  inversion Hd; subst pg; clear Hd. cbn [App.filtered_changes] in Hr.
  apply filter_In in Hr. destruct Hr as [Hin Hch].
  unfold App.merged in Hin. destruct (App.show_price_changes b).
  - unfold App.merge_left in Hin. apply in_flat_map in Hin.
    destruct Hin as (c & _ & Hin).
    destruct (filter (fun q => str_eqb (Link c) (fst q)) (App.prev_prices b))
      as [|q qs] eqn:Hf.
    + destruct Hin as [<-|[]]. split; reflexivity.
    + apply in_map_iff in Hin. destruct Hin as (q' & <- & Hq').
      assert (Hin' : In q' (App.prev_prices b)).
      { assert (H : In q' (filter (fun q => str_eqb (Link c) (fst q))
                             (App.prev_prices b))) by (rewrite Hf; exact Hq').
        apply filter_In in H. tauto. }
      unfold App.prev_prices in Hin'. rewrite Ht in Hin'.
      apply in_map_iff in Hin'. destruct Hin' as (p & <- & _).
      cbn [fst snd] in Hch. rewrite no_changes_without_old_prices in Hch.
      discriminate.
  - apply in_map_iff in Hin. destruct Hin as (c & <- & _).
    rewrite no_changes_without_old_prices in Hch. discriminate.
Qed.

(** C1.  The two comparisons where a missing price or a baseline without a
    [Title] column decides the outcome, and the dashboard at the worked
    example when the baseline has a [Title] column.
    In the scraper a product that had no price in the previous crawl and has
    one now is logged as a price change: the empty cells come back from the
    CSV file as NaN, which is true and differs from everything.  In the
    dashboard a baseline without a [Title] column, which is what its own save
    button writes, has its prices blanked, so that the change of the sale
    price from "$8.00" to "$10.00" is not shown; with a [Title] column it is
    shown, alone. *)
Theorem missing_prices_and_blanked_baselines :
  let before := row_of (py "/p1") [] [] in
  let after := row_of (py "/p1") (py "$5.00") (py "$5.00") in
  let previous := row_of (py "/p1") (py "$8.00") (py "$10.00") in
  let present := row_of (py "/p1") (py "$10.00") (py "$10.00") in
  let joined :=
    {| App.current := present; App.Sale_Price_old := VStr (py "$8.00");
       App.Regular_Price_old := VStr (py "$10.00") |} in
  price_changes (compare (Frame (reloaded [before])) [after])
    = [(reload before, after)] /\
  option_map App.filtered_changes
    (App.dashboard [present]
       {| App.has_link := true; App.has_title := false; App.rows := [previous] |})
    = Some [] /\
  option_map App.filtered_changes
    (App.dashboard [present]
       {| App.has_link := true; App.has_title := true; App.rows := [previous] |})
    = Some [joined] /\
  App.format_price_changes joined
    = [ {| App.changed_field := App.Sale_Field;
           App.old_value := FNum (800 # 100);
           App.new_value := FNum (1000 # 100) |} ].
Proof.
  cbv zeta. repeat split; vm_compute; reflexivity.
Qed.

(** The scraper at the worked example: the pair is logged. *)
Example scraper_logs_the_worked_example :
  let previous := row_of (py "/p1") (py "$8.00") (py "$10.00") in
  let present := row_of (py "/p1") (py "$10.00") (py "$10.00") in
  price_changes (compare (Frame (reloaded [previous])) [present])
  = [(previous, present)].
Proof. vm_compute. reflexivity. Qed.

(** The other copy of the dashboard at the worked example, with the baseline
    that has no [Title] column: the change of the sale price is shown. *)
Example final_final_shows_the_worked_example :
  let previous := row_of (py "/p1") (py "$8.00") (py "$10.00") in
  let present := row_of (py "/p1") (py "$10.00") (py "$10.00") in
  let b := {| App.has_link := true; App.has_title := false;
              App.rows := [previous] |} in
  map App.format_price_changes
      (filter App.has_changes (Final_Final.merged (map App.prepare [present]) b))
  = [[ {| App.changed_field := App.Sale_Field;
          App.old_value := FNum (800 # 100);
          App.new_value := FNum (1000 # 100) |} ]].
Proof. vm_compute. reflexivity. Qed.

(** A current product without a previous record is joined with NaN, which
    [safe_float] reads as the float NaN: the row is listed among the price
    changes as well as among the new products. *)
Example unmatched_product_listed_as_changed :
  let previous := row_of (py "/p1") (py "$8.00") (py "$10.00") in
  let present := row_of (py "/p1") (py "$8.00") (py "$10.00") in
  let other := row_of (py "/p2") (py "$3.00") (py "$4.00") in
  let b := {| App.has_link := true; App.has_title := true;
              App.rows := [previous] |} in
  let unmatched := {| App.current := other; App.Sale_Price_old := VNaN;
                      App.Regular_Price_old := VNaN |} in
  option_map App.filtered_changes (App.dashboard [present; other] b)
    = Some [unmatched] /\
  option_map App.new_products (App.dashboard [present; other] b)
    = Some [unmatched].
Proof. cbv zeta. split; vm_compute; reflexivity. Qed.

Lemma merge_left_joined (df : list product) (prev : list (str * (pyval * pyval)))
    (c : product) (q : str * (pyval * pyval)) :
  In c df -> In q prev -> Link c = fst q ->
  In {| App.current := c; App.Sale_Price_old := fst (snd q);
        App.Regular_Price_old := snd (snd q) |} (App.merge_left df prev).
Proof.
  intros Hc Hq Hlink. unfold App.merge_left. apply in_flat_map.
  exists c. split; [assumption|].
  assert (Hf : In q (filter (fun q => str_eqb (Link c) (fst q)) prev)).
  { apply filter_In. split; [assumption|]. now apply str_eqb_eq. }
  destruct (filter (fun q => str_eqb (Link c) (fst q)) prev) as [|q0 qs];
    [contradiction|].
  apply in_map_iff. exists q. split; [reflexivity|assumption].
Qed.

(** C2, as amended.  In the dashboard the links of both snapshots are
    lower-cased and stripped of trailing slashes before the join, so that
    links which differ only by the case of ASCII letters or by trailing
    slashes have one normal form; a current record whose link differs from
    that of a previous record only in this way is joined with it (with its
    prices when the previous snapshot has a [Title] column) and is not listed
    among the new products. *)
Theorem dashboard_matches_normalised_links
    (current_rows : list product) (b : App.baseline) (cur prev : product) :
  In cur current_rows -> In prev (App.rows b) -> App.has_link b = true ->
  same_product_link (Link cur) (Link prev) ->
  App.normalize_link (Link cur) = App.normalize_link (Link prev) /\
  exists pg,
    App.dashboard current_rows b = Some pg /\
    (forall r, In r (App.new_products pg) ->
       Link (App.current r) <> App.normalize_link (Link cur)) /\
    exists r,
      In r (App.merged (map App.prepare current_rows) b) /\
      App.current r = App.prepare cur /\
      (App.has_title b = true ->
       App.Sale_Price_old r = App.fillna (Sale_Price prev) /\
       App.Regular_Price_old r = App.fillna (Regular_Price prev)).
Proof.
  intros Hcur Hprev Hlink Hsame.
  pose proof (normalize_link_same_product _ _ Hsame) as Hnorm.
  split; [exact Hnorm|].
  assert (Hdf : App.prev_df b = map App.prepare (App.rows b))
    by (unfold App.prev_df; now rewrite Hlink).
  assert (Hin : In (App.prepare prev) (App.prev_df b))
    by (rewrite Hdf; now apply in_map).
  assert (Hshow : App.show_price_changes b = true).
  { unfold App.show_price_changes. destruct (App.prev_df b); [contradiction|reflexivity]. }
  destruct current_rows as [|c0 cs]; [contradiction|].
  set (current_rows := c0 :: cs) in *.
  assert (Hd : App.dashboard current_rows b
               = Some {| App.all_products := map App.prepare current_rows;
                         App.filtered_changes :=
                           filter App.has_changes
                             (App.merged (map App.prepare current_rows) b);
                         App.new_products :=
                           match App.prev_df b with
                           | [] => App.merged (map App.prepare current_rows) b
                           | _ :: _ =>
                               filter (fun r =>
                                 negb (existsb (str_eqb (Link (App.current r)))
                                               (map Link (App.prev_df b))))
                                 (App.merged (map App.prepare current_rows) b)
                           end |}) by reflexivity.
  rewrite Hd. eexists. split; [reflexivity|]. cbn [App.new_products]. split.
  - intros r Hr. destruct (App.prev_df b) as [|p0 ps] eqn:Hp; [contradiction|].
    apply filter_In in Hr. destruct Hr as [_ Hr]. intros E.
    apply negb_true_iff in Hr.
    assert (Ht : existsb (str_eqb (Link (App.current r))) (map Link (p0 :: ps)) = true).
    { apply existsb_str_eqb. rewrite E, Hnorm.
      change (App.normalize_link (Link prev)) with (Link (App.prepare prev)).
      now apply in_map. }
    congruence.
  - unfold App.merged. rewrite Hshow.
    set (q := if App.has_title b
              then (Link (App.prepare prev),
                    (Sale_Price (App.prepare prev), Regular_Price (App.prepare prev)))
              else (Link (App.prepare prev), (VStr [], VStr []))).
    assert (Hq : In q (App.prev_prices b)).
    { unfold App.prev_prices, q. destruct (App.has_title b);
        apply in_map_iff; exists (App.prepare prev); auto. }
    assert (Hfst : Link (App.prepare cur) = fst q).
    { unfold q. destruct (App.has_title b); cbn [fst App.prepare Link]; exact Hnorm. }
    exists {| App.current := App.prepare cur;
              App.Sale_Price_old := fst (snd q);
              App.Regular_Price_old := snd (snd q) |}.
    split; [|split].
    + apply merge_left_joined; [now apply in_map|assumption|assumption].
    + reflexivity.
    + intros Ht. unfold q. rewrite Ht. split; reflexivity.
Qed.

Lemma dashboard_matches_normalised_links_witness :
  let cur := row_of (py "https://nidhiratna.com/products/Ring/") (py "$10.00") (py "$10.00") in
  let prev := row_of (py "https://nidhiratna.com/products/ring") (py "$8.00") (py "$10.00") in
  let b := {| App.has_link := true; App.has_title := true; App.rows := [prev] |} in
  App.normalize_link (Link cur) = App.normalize_link (Link prev) /\
  exists pg,
    App.dashboard [cur] b = Some pg /\
    (forall r, In r (App.new_products pg) ->
       Link (App.current r) <> App.normalize_link (Link cur)) /\
    exists r,
      In r (App.merged (map App.prepare [cur]) b) /\
      App.current r = App.prepare cur /\
      (App.has_title b = true ->
       App.Sale_Price_old r = App.fillna (Sale_Price prev) /\
       App.Regular_Price_old r = App.fillna (Regular_Price prev)).
Proof.
  cbv zeta.
  apply (dashboard_matches_normalised_links
           [row_of (py "https://nidhiratna.com/products/Ring/") (py "$10.00") (py "$10.00")]
           {| App.has_link := true; App.has_title := true;
              App.rows := [row_of (py "https://nidhiratna.com/products/ring")
                             (py "$8.00") (py "$10.00")] |}).
  - left. reflexivity.
  - left. reflexivity.
  - reflexivity.
  - exists (py "https://nidhiratna.com/products/Ring"),
           (py "https://nidhiratna.com/products/ring"), 1, 0.
    split; [reflexivity|]. split; [reflexivity|].
    repeat (constructor; [first [left; reflexivity
                                |right; left; split; reflexivity]|]).
    constructor.
Defined.

(** The scraper joins on the links as they are stored: two records of one
    product whose links differ by a trailing slash and the case of a letter
    are not joined, the current one is logged as new and the previous one as
    removed. *)
Lemma scraper_joins_on_raw_links :
  let prev := row_of (py "https://nidhiratna.com/products/ring") (py "$8.00") (py "$10.00") in
  let cur := row_of (py "https://nidhiratna.com/products/Ring/") (py "$10.00") (py "$10.00") in
  same_product_link (Link cur) (Link prev) /\
  compare (Frame [prev]) [cur]
  = {| price_changes := []; new_products := [cur];
       removed_products := [Link prev] |}.
Proof.
  cbv zeta. split.
  - exists (py "https://nidhiratna.com/products/Ring"),
           (py "https://nidhiratna.com/products/ring"), 1, 0.
    split; [reflexivity|]. split; [reflexivity|].
    repeat (constructor; [first [left; reflexivity
                                |right; left; split; reflexivity]|]).
    constructor.
  - vm_compute. reflexivity.
Qed.

(** C5, as amended.  Without a previous snapshot the dashboard lists every
    current product as new and shows no price change; the scraper, when there
    is no previous file, skips its comparison and logs neither new products
    nor price changes nor removed ones. *)
Theorem no_baseline_all_new_in_dashboard :
  (forall current_rows b,
     current_rows <> [] -> App.prev_df b = [] ->
     exists pg,
       App.dashboard current_rows b = Some pg /\
       map App.current (App.new_products pg) = map App.prepare current_rows /\
       length (App.new_products pg) = length current_rows /\
       App.filtered_changes pg = []) /\
  (forall results, compare NoFile results = nothing_logged).
Proof.
  split.
  - intros current_rows b Hne Hprev.
    destruct current_rows as [|c0 cs]; [contradiction|].
    set (current_rows := c0 :: cs) in *.
    assert (Hd : App.dashboard current_rows b
                 = Some {| App.all_products := map App.prepare current_rows;
                           App.filtered_changes :=
                             filter App.has_changes
                               (App.merged (map App.prepare current_rows) b);
                           App.new_products :=
                             match App.prev_df b with
                             | [] => App.merged (map App.prepare current_rows) b
                             | _ :: _ =>
                                 filter (fun r =>
                                   negb (existsb (str_eqb (Link (App.current r)))
                                                 (map Link (App.prev_df b))))
                                   (App.merged (map App.prepare current_rows) b)
                             end |}) by reflexivity.
    rewrite Hd. clear Hd. clearbody current_rows. eexists. split; [reflexivity|].
    cbn [App.new_products App.filtered_changes].
    unfold App.merged, App.show_price_changes. rewrite Hprev.
    rewrite map_map, !length_map. cbn [App.current]. rewrite map_id.
    split; [reflexivity|]. split; [reflexivity|].
    induction (map App.prepare current_rows) as [|c t IH]; [reflexivity|].
    cbn [map filter]. rewrite no_changes_without_old_prices. exact IH.
  - intros results. reflexivity.
Qed.

(** With no previous file the scraper logs no new product, although the
    crawl found one. *)
Lemma scraper_reports_nothing_without_file :
  let p := row_of (py "/p1") (py "$10.00") (py "$10.00") in
  new_products (compare NoFile [p]) = [] /\
  new_products (compare NoFile [p]) <> [p].
Proof. cbv zeta. split; [reflexivity|discriminate]. Qed.

(* ================================================================== *)
(** * The theorems at sample inputs                                    *)
(* ================================================================== *)





Lemma page_failures_are_recorded_witness :
  (forall l x, In x (nodup str_eq_dec l) <-> In x l) /\
  requests_get_with_retry net_down (py "https://nidhiratna.com/products/ring") start
  = (None, {| requests := 3; slept := [inject_Z 2; inject_Z 4] |}).
Proof.
  split.
  - intros l x. apply nodup_In.
  - exact (proj1 (page_failures_are_recorded soup net_down (fun _ => [])
                    (fun r => r) (py "2024-01-01") (nodup str_eq_dec)
                    (fun l x => nodup_In str_eq_dec l x))
                 (py "https://nidhiratna.com/products/ring") start eq_refl).
Defined.

Example crawl_with_network_down :
  scrape_products net_down (fun r => r) (py "2024-01-01") (nodup str_eq_dec)
    [py "/products/a"; py "/products/b"] [] [] start
  = (Some ([], [py "/products/a"; py "/products/b"]),
     {| requests := 6;
        slept := [inject_Z 2; inject_Z 4; inject_Z 2; inject_Z 4] |}).
Proof. vm_compute. reflexivity. Qed.

Example crawl_with_network_up :
  fst (scrape_products net_up (fun r => r) (py "2024-01-01") (nodup str_eq_dec)
         [py "https://nidhiratna.com/products/ring/"] [] [] start)
  = Some ([ {| Title := py "Ring"; SKU := py "ring";
               Sale_Price := VStr (py "$15.00");
               Regular_Price := VStr (py "$20.00");
               Availability := py "Available";
               Link := py "https://nidhiratna.com/products/ring/";
               Date := py "2024-01-01" |} ], []).
Proof. vm_compute. reflexivity. Qed.

(* ================================================================== *)
(** * Pagination                                                       *)
(* ================================================================== *)

Lemma firstn_plus {A : Type} (a b : nat) (l : list A) :
  firstn (a + b) l = firstn a l ++ firstn b (skipn a l).
Proof.
  revert l. induction a as [|a IH]; intros l; [reflexivity|].
  destruct l as [|x l].
  - rewrite skipn_nil, !firstn_nil. reflexivity.
  - cbn [Nat.add firstn skipn app]. now rewrite IH.
Qed.

Lemma num_pages_bounds (n : Z) :
  (0 <= n)%Z ->
  (0 <= Pages.num_pages n)%Z /\
  (n <= Pages.rows_per_page * Pages.num_pages n)%Z /\
  (0 < n -> Pages.rows_per_page * (Pages.num_pages n - 1) < n)%Z /\
  (n = 0%Z <-> Pages.num_pages n = 0%Z).
Proof.
  intros Hn. unfold Pages.num_pages, Pages.rows_per_page.
  pose proof (Z.div_mod n 20 ltac:(lia)) as Hdm.
  pose proof (Z.mod_pos_bound n 20 ltac:(lia)) as Hm.
  assert (Hq : (0 <= n / 20)%Z) by (apply Z.div_pos; lia).
  destruct (n mod 20 >? 0)%Z eqn:E.
  - apply Z.gtb_lt in E. repeat split; try lia.
  - assert (n mod 20 = 0)%Z.
    { destruct (Z.gtb_spec (n mod 20) 0); [discriminate|lia]. }
    repeat split; try lia.
Qed.

(** A page from 1 on is a window of twenty rows. *)
Lemma paginate_window {A : Type} (df : list A) (page : Z) :
  (1 <= page)%Z ->
  Pages.paginate df page = firstn 20 (skipn (20 * Z.to_nat (page - 1)) df).
Proof.
  intros Hp. unfold Pages.paginate, Pages.iloc, Pages.slice_bound, Pages.rows_per_page.
  set (n := Z.of_nat (length df)).
  assert (Hn : (0 <= n)%Z) by (unfold n; lia).
  set (k := Z.to_nat (page - 1)).
  assert (Hk : ((page - 1) * 20 = Z.of_nat (20 * k))%Z) by (unfold k; lia).
  rewrite Hk.
  destruct (Z.of_nat (20 * k) <? 0)%Z eqn:E1; [apply Z.ltb_lt in E1; lia|].
  destruct (Z.of_nat (20 * k) + 20 <? 0)%Z eqn:E2; [apply Z.ltb_lt in E2; lia|].
  destruct (Z_le_gt_dec (Z.of_nat (20 * k)) n) as [Hle|Hgt].
  - rewrite (Z.min_l _ _ Hle), Nat2Z.id.
    destruct (Z_le_gt_dec (Z.of_nat (20 * k) + 20) n) as [Hle2|Hgt2].
    + rewrite Z.min_l by lia.
      replace (Z.to_nat (Z.of_nat (20 * k) + 20 - Z.of_nat (20 * k))) with 20 by lia.
      reflexivity.
    + rewrite Z.min_r by lia.
      rewrite (firstn_all2 (n:=20)); [|rewrite length_skipn; unfold n in *; lia].
      apply firstn_all2. rewrite length_skipn. unfold n in *. lia.
  - rewrite !Z.min_r by lia.
    replace (Z.to_nat (n - n)) with 0 by lia. cbn [firstn].
    rewrite (skipn_all2 (n:=20 * k)); [|unfold n in *; lia].
    reflexivity.
Qed.

Lemma pages_concat {A : Type} (df : list A) (m : nat) :
  concat (map (Pages.paginate df) (map Z.of_nat (seq 1 m))) = firstn (20 * m) df.
Proof.
  induction m as [|m IH]; [reflexivity|].
  rewrite seq_S, !map_app, concat_app, IH. cbn [map concat Nat.add].
  rewrite app_nil_r, paginate_window by lia.
  replace (Z.to_nat (Z.of_nat (S m) - 1)) with m by lia.
  replace (20 * S m) with (20 * m + 20) by lia.
  now rewrite firstn_plus.
Qed.

Lemma paginate_past_last {A : Type} (df : list A) (page : Z) :
  (Pages.num_pages (Z.of_nat (length df)) < page)%Z -> Pages.paginate df page = [].
Proof.
  intros Hp.
  destruct (num_pages_bounds (Z.of_nat (length df)) ltac:(lia)) as (H0 & Hup & _ & _).
  unfold Pages.rows_per_page in *.
  rewrite paginate_window by lia.
  rewrite skipn_all2; [apply firstn_nil|]. lia.
Qed.

(** X1.  The pages offered for a table of [df] partition it: shown one after
    the other they give back [df]; every page has at most twenty rows, every
    page before the last has exactly twenty, the last one is not empty, and a
    page after the last is empty.  An empty table has no page to select. *)
Theorem pages_partition_the_table {A : Type} (df : list A) :
  let last := Pages.num_pages (Z.of_nat (length df)) in
  concat (map (Pages.paginate df) (Pages.page_options last)) = df /\
  (forall page, (1 <= page)%Z -> length (Pages.paginate df page) <= 20) /\
  (forall page, (1 <= page < last)%Z -> length (Pages.paginate df page) = 20) /\
  (df <> [] -> Pages.paginate df last <> []) /\
  (forall page, (last < page)%Z -> Pages.paginate df page = []) /\
  (Pages.page_options last = [] <-> df = []).
Proof.
  cbv zeta. set (n := Z.of_nat (length df)).
  destruct (num_pages_bounds n ltac:(unfold n; lia)) as (H0 & Hup & Hlow & Hz).
  unfold Pages.rows_per_page in *.
  split; [|split; [|split; [|split; [|split]]]].
  - unfold Pages.page_options. rewrite pages_concat.
    apply firstn_all2. unfold n in *. lia.
  - intros page Hp. rewrite paginate_window by assumption.
    rewrite length_firstn. lia.
  - intros page Hp. rewrite paginate_window by lia.
    rewrite length_firstn, length_skipn. unfold n in *. lia.
  - intros Hne. assert (Hpos : (0 < n)%Z).
    { unfold n. destruct df; [contradiction|]. cbn [length]. lia. }
    specialize (Hlow Hpos).
    rewrite paginate_window by lia. intros E.
    apply (f_equal (@length A)) in E.
    rewrite length_firstn, length_skipn in E. cbn [length] in E.
    unfold n in *. lia.
  - intros page Hp. now apply paginate_past_last.
  - unfold Pages.page_options. split.
    + intros E. apply (f_equal (@length Z)) in E.
      rewrite length_map, length_seq in E. cbn [length] in E.
      assert (Pages.num_pages n = 0)%Z by lia.
      apply Hz in H. unfold n in H. destruct df; [reflexivity|].
      cbn [length] in H. lia.
    + intros ->. reflexivity.
Qed.

Lemma num_pages_mono (n m : Z) :
  (0 <= n <= m)%Z -> (Pages.num_pages n <= Pages.num_pages m)%Z.
Proof.
  intros [Hn Hm].
  destruct (num_pages_bounds n Hn) as (_ & _ & Hlow & Hz).
  destruct (num_pages_bounds m ltac:(lia)) as (H0 & Hup & _ & _).
  unfold Pages.rows_per_page in *.
  destruct (Z.eq_dec n 0) as [->|Hne].
  - assert (Pages.num_pages 0 = 0)%Z by now apply Hz. lia.
  - specialize (Hlow ltac:(lia)). lia.
Qed.

Lemma page_options_in (last page : Z) :
  In page (Pages.page_options last) <-> (1 <= page <= last)%Z.
Proof.
  unfold Pages.page_options. rewrite in_map_iff. split.
  - intros (k & <- & Hk). apply in_seq in Hk. lia.
  - intros H. exists (Z.to_nat page). split; [lia|]. apply in_seq. lia.
Qed.

(** X2.  The pages offered for the table of price changes are counted on the
    whole merged frame while the table shows only the rows with a change:
    every page that has rows to show is among the pages offered, and the
    pages offered beyond the rows with a change are empty. *)
Theorem change_pages_counted_on_all_rows (merged : list App.merged_row) :
  let shown := filter App.has_changes merged in
  let needed := Pages.num_pages (Z.of_nat (length shown)) in
  (forall page, (1 <= page)%Z -> Pages.paginate shown page <> [] ->
     In page (Pages.pages_changes merged)) /\
  (forall page, In page (Pages.pages_changes merged) -> (needed < page)%Z ->
     Pages.paginate shown page = []) /\
  (length (Pages.pages_changes merged) >= Z.to_nat needed).
Proof.
  cbv zeta. unfold Pages.pages_changes.
  set (shown := filter App.has_changes merged).
  assert (Hlen : length shown <= length merged) by apply filter_length_le.
  pose proof (num_pages_mono (Z.of_nat (length shown)) (Z.of_nat (length merged))
                ltac:(lia)) as Hmono.
  pose proof (paginate_past_last shown) as Hafter.
  split; [|split].
  - intros page Hp Hne. apply page_options_in. split; [assumption|].
    destruct (Z_le_gt_dec page (Pages.num_pages (Z.of_nat (length shown))))
      as [Hle|Hgt]; [lia|].
    exfalso. apply Hne. apply Hafter. lia.
  - intros page _ Hgt. now apply Hafter.
  - unfold Pages.page_options. rewrite length_map, length_seq. lia.
Qed.

(* ================================================================== *)
(** * normalize_price: when a price is found                           *)
(* ================================================================== *)

Lemma space_not_digit (c : ascii) : is_space c = true -> is_digit c = false.
Proof.
  intros H. destruct (is_digit c) eqn:E; [|reflexivity].
  rewrite (digit_not_space c E) in H. discriminate.
Qed.

Lemma has_digit_app (x y : str) : has_digit (x ++ y) = has_digit x || has_digit y.
Proof. apply existsb_app. Qed.

Lemma has_digit_rev (x : str) : has_digit (rev x) = has_digit x.
Proof.
  induction x as [|c t IH]; [reflexivity|].
  cbn [rev]. rewrite has_digit_app, IH. cbn [has_digit existsb].
  rewrite orb_false_r. apply orb_comm.
Qed.

Lemma has_digit_replace (a : ascii) (x : str) :
  is_digit a = false ->
  has_digit (map (fun c => if Ascii.eqb c a then SP else c) x) = has_digit x.
Proof.
  intros Ha. induction x as [|c t IH]; [reflexivity|].
  cbn [map has_digit existsb]. fold (has_digit t).
  fold (has_digit (map (fun c => if Ascii.eqb c a then SP else c) t)).
  rewrite IH. destruct (Ascii.eqb c a) eqn:E; [|reflexivity].
  apply Ascii.eqb_eq in E. subst c. rewrite Ha. reflexivity.
Qed.

Lemma has_digit_drop_spaces (x : str) :
  has_digit (drop_while is_space x) = has_digit x.
Proof.
  induction x as [|c t IH]; [reflexivity|].
  cbn [drop_while]. destruct (is_space c) eqn:E; [|reflexivity].
  rewrite IH. cbn [has_digit existsb]. now rewrite (space_not_digit c E).
Qed.

Lemma has_digit_strip (x : str) : has_digit (strip x) = has_digit x.
Proof.
  unfold strip, rstrip, lstrip.
  now rewrite has_digit_rev, has_digit_drop_spaces, has_digit_rev,
    has_digit_drop_spaces.
Qed.

Lemma has_digit_collapse (x : str) :
  forall in_run, has_digit (collapse_from in_run x) = has_digit x.
Proof.
  induction x as [|c t IH]; intros in_run; [reflexivity|].
  cbn [collapse_from]. destruct (is_space c) eqn:E.
  - cbn [has_digit existsb]. rewrite (space_not_digit c E).
    destruct in_run; [apply IH|].
    cbn [has_digit existsb]. change (is_digit SP) with false. apply IH.
  - cbn [has_digit existsb]. fold (has_digit (collapse_from false t)).
    fold (has_digit t). now rewrite IH.
Qed.

Lemma has_digit_clean_text (x : str) : has_digit (clean_text x) = has_digit x.
Proof.
  unfold clean_text, collapse_spaces.
  rewrite has_digit_collapse, has_digit_strip.
  rewrite has_digit_replace by reflexivity.
  apply has_digit_replace. reflexivity.
Qed.

Lemma matches_one_digit (d : ascii) : is_digit d = true -> matches price_re [d].
Proof.
  intros Hd. unfold price_re.
  change [d] with ([] ++ ([d] ++ []) ++ ([] ++ [])).
  apply m_seq; [apply m_alt_r; constructor|].
  apply m_seq.
  - unfold price_digits, Plus. apply m_seq; [now constructor|constructor].
  - apply m_seq; [constructor|apply m_alt_r; constructor].
Qed.

Lemma matches_price_re_has_digit (m : str) : matches price_re m -> has_digit m = true.
Proof.
  unfold price_re. intros H.
  inversion H as [| |? ? sym r1 Hs H1| | | |]; subst.
  inversion H1 as [| |? ? ds r2 Hd H2| | | |]; subst.
  apply matches_price_digits in Hd. destruct Hd as [Hne Hds].
  rewrite !has_digit_app.
  destruct ds as [|d ds]; [contradiction|].
  cbn [forallb] in Hds. apply andb_prop in Hds. destruct Hds as [Hd _].
  cbn [has_digit existsb]. rewrite Hd. cbn [orb]. apply orb_true_r.
Qed.

Lemma re_search_price_none (t : str) :
  re_search price_re t = None <-> has_digit t = false.
Proof.
  split.
  - intros H. destruct (has_digit t) eqn:E; [|reflexivity].
    unfold has_digit in E. apply existsb_exists in E. destruct E as (d & Hin & Hd).
    apply in_split in Hin. destruct Hin as (l1 & l2 & ->).
    exfalso. apply (re_search_none price_re _ H l1 [d] l2); [reflexivity|].
    now apply matches_one_digit.
  - intros H. destruct (re_search price_re t) as [m|] eqn:E; [|reflexivity].
    apply re_search_some in E. destruct E as (pre & post & -> & Hm & _).
    apply matches_price_re_has_digit in Hm.
    rewrite !has_digit_app, Hm, orb_true_r in H. discriminate.
Qed.

(** X3.  On text of ASCII characters and rupee signs [normalize_price]
    finds a price exactly when the text contains a digit: the result is
    empty when it has none, and otherwise it is an optional currency symbol,
    at least one digit and an optional fraction of two digits, without any
    comma or white space. *)
Theorem normalize_price_finds_price_iff_digit (x : str) :
  ascii_or_rupee x = true ->
  (normalize_price (VStr x) = [] <-> has_digit x = false) /\
  (has_digit x = true ->
   canonical_price (normalize_price (VStr x)) /\
   forallb not_comma (normalize_price (VStr x)) = true /\
   no_space (normalize_price (VStr x)) = true).
Proof.
  intros _.
  assert (Hiff : normalize_price (VStr x) = [] <-> has_digit x = false).
  { rewrite <- has_digit_clean_text, <- re_search_price_none.
    unfold normalize_price.
    destruct (re_search price_re (clean_text x)) as [m|] eqn:E.
    - split; [|discriminate]. intros H. exfalso.
      destruct (normalize_price_shape (VStr x)) as [_|Hc].
      + apply re_search_some in E. destruct E as (pre & post & _ & Hm & _).
        apply matches_price_re_canonical, canonical_not_empty in Hm.
        apply Hm. change (py ",") with [","%char] in H.
        now rewrite str_replace_char_filter in H.
      + apply canonical_not_empty in Hc. apply Hc.
        unfold normalize_price. now rewrite E.
    - tauto. }
  split; [exact Hiff|].
  intros Hd.
  destruct (normalize_price_shape (VStr x)) as [He|Hc].
  - apply Hiff in He. congruence.
  - split; [assumption|]. split.
    + now apply canonical_no_comma.
    + now apply canonical_no_space.
Qed.

Lemma normalize_price_finds_price_iff_digit_witness :
  let x := py "Sale ₹ 1,999.00 only" in
  ascii_or_rupee x = true /\
  has_digit x = true /\
  canonical_price (normalize_price (VStr x)) /\
  normalize_price (VStr x) = py "1999.00".
Proof.
  cbv zeta.
  assert (H : ascii_or_rupee (py "Sale ₹ 1,999.00 only") = true)
    by (vm_compute; reflexivity).
  assert (Hd : has_digit (py "Sale ₹ 1,999.00 only") = true)
    by (vm_compute; reflexivity).
  split; [exact H|]. split; [exact Hd|].
  split; [|vm_compute; reflexivity].
  exact (proj1 (proj2 (normalize_price_finds_price_iff_digit _ H) Hd)).
Defined.

(* ================================================================== *)
(** * The rows of the crawl                                            *)
(* ================================================================== *)

Section Row_Facts.

Variable today : str.
Variable set_iter : list str -> list str.

Hypothesis set_iter_in : forall l x, In x (set_iter l) <-> In x l.

(** X4.  A row built from a product page whose price containers hold text
    of ASCII characters and rupee signs carries the URL it was asked for as
    its link, and its two prices are both blank or both canonical prices
    other than "$0.00": such a page never gives a sale price without a
    regular price or the other way round. *)
Theorem scrape_page_prices_both_or_neither (sp : soup) (url : str) (row : product) :
  plain_prices sp ->
  scrape_page today set_iter sp url = Some row ->
  Link row = url /\ crawl_row row /\
  (Sale_Price row <> VStr (py "$0.00") /\ Regular_Price row <> VStr (py "$0.00")).
Proof.
  unfold scrape_page, scrape_prices. intros _ H.
  destruct (scan_containers_spec set_iter set_iter_in (price_containers sp))
    as [[_ Hscan]|(before & c & after & sale & regular &
                   _ & _ & _ & Hscan & Hs & Hr & Hin_s & Hin_r & _)];
    rewrite Hscan in H; inversion H; subst row; clear H;
    cbn [Link Sale_Price Regular_Price or_empty].
  - split; [reflexivity|]. split.
    + exists [], []. cbn. auto.
    + split; discriminate.
  - pose proof (prices_of_canonical c sale Hin_s) as Hcs.
    pose proof (prices_of_canonical c regular Hin_r) as Hcr.
    apply prices_of_spec in Hin_s, Hin_r.
    destruct Hin_s as (_ & _ & _ & _ & Hzs), Hin_r as (_ & _ & _ & _ & Hzr).
    destruct sale as [|a s]; [contradiction|].
    destruct regular as [|b r]; [contradiction|].
    cbn [or_empty]. split; [reflexivity|]. split.
    + exists (a :: s), (b :: r). cbn. auto.
    + split; congruence.
Qed.

End Row_Facts.

Lemma scrape_page_prices_both_or_neither_witness :
  (forall l x, In x (nodup str_eq_dec l) <-> In x l) /\
  plain_prices sample_page /\
  scrape_page (py "2024-01-01") (nodup str_eq_dec) sample_page (py "/products/ring")
    = Some {| Title := py "Ring"; SKU := py "ring";
              Sale_Price := VStr (py "$15.00");
              Regular_Price := VStr (py "$20.00");
              Availability := py "Available";
              Link := py "/products/ring"; Date := py "2024-01-01" |} /\
  crawl_row {| Title := py "Ring"; SKU := py "ring";
               Sale_Price := VStr (py "$15.00");
               Regular_Price := VStr (py "$20.00");
               Availability := py "Available";
               Link := py "/products/ring"; Date := py "2024-01-01" |}.
Proof.
  assert (H1 : forall l x, In x (nodup str_eq_dec l) <-> In x l)
    by (intros l x; apply nodup_In).
  assert (H2 : scrape_page (py "2024-01-01") (nodup str_eq_dec) sample_page
                 (py "/products/ring")
               = Some {| Title := py "Ring"; SKU := py "ring";
                         Sale_Price := VStr (py "$15.00");
                         Regular_Price := VStr (py "$20.00");
                         Availability := py "Available";
                         Link := py "/products/ring"; Date := py "2024-01-01" |})
    by (vm_compute; reflexivity).
  assert (H0 : plain_prices sample_page) by (repeat constructor).
  split; [exact H1|]. split; [exact H0|]. split; [exact H2|].
  exact (proj1 (proj2 (scrape_page_prices_both_or_neither (py "2024-01-01")
                         (nodup str_eq_dec) H1 sample_page (py "/products/ring") _
                         H0 H2))).
Defined.

(* ================================================================== *)
(** * The fetcher: schedule of the attempts                            *)
(* ================================================================== *)

Section Fetch_Facts.

Variable response : Type.
Variable net : nat -> str -> option response.
Variable sitemap_locs : response -> list str.

(** X5.  The schedule of [requests_get_with_retry]: an answer to the first
    request is returned at once, without a pause; after a first failure the
    fetcher pauses 2 seconds, after a second one 4 seconds; it never sends
    more than three requests and does not pause after the last one. *)
Theorem retry_schedule (url : str) (w : world) :
  let n := requests w in
  let after k pauses := {| requests := n + k; slept := slept w ++ pauses |} in
  (forall r, net n url = Some r ->
     requests_get_with_retry net url w = (Some r, after 1 [])) /\
  (forall r, net n url = None -> net (S n) url = Some r ->
     requests_get_with_retry net url w = (Some r, after 2 [inject_Z 2])) /\
  (net n url = None -> net (S n) url = None ->
     requests_get_with_retry net url w
     = (net (S (S n)) url, after 3 [inject_Z 2; inject_Z 4])).
Proof.
  cbv zeta. unfold requests_get_with_retry, MAX_RETRIES.
  cbn [attempts]. unfold MAX_RETRIES, RETRY_BACKOFF, bind, requests_get, sleep, ret.
  cbn [Nat.eqb requests slept].
  split; [|split].
  - intros r H. rewrite H. rewrite app_nil_r. do 2 f_equal. lia.
  - intros r H1 H2. rewrite H1. cbn [requests slept]. rewrite H2.
    do 2 f_equal. lia.
  - intros H1 H2. rewrite H1. cbn [requests slept]. rewrite H2.
    cbn [requests slept].
    destruct (net (S (S (requests w))) url);
      rewrite <- app_assoc; do 2 f_equal; lia.
Qed.

Lemma retry_answer_from_net (url : str) (w : world) (r : response) :
  fst (requests_get_with_retry net url w) = Some r -> exists n, net n url = Some r.
Proof.
  destruct (requests_get_with_retry_spec _ net url w) as (Hfst & _).
  rewrite Hfst. unfold first_answer.
  destruct (net (requests w) url) eqn:E1; [intros H; inversion H; subst; eauto|].
  destruct (net (S (requests w)) url) eqn:E2; [intros H; inversion H; subst; eauto|].
  eauto.
Qed.

Lemma retry_reliable (url : str) (w : world) (r : response) :
  (forall n, net n url = Some r) -> fst (requests_get_with_retry net url w) = Some r.
Proof.
  intros H. destruct (requests_get_with_retry_spec _ net url w) as (Hfst & _).
  rewrite Hfst. unfold first_answer. now rewrite H.
Qed.

Lemma collect_product_urls_sound (sitemaps : list str) :
  forall acc w u,
    In u (fst (collect_product_urls net sitemap_locs sitemaps acc w)) ->
    In u acc \/
    (contains (py "/products/") u = true /\
     exists sm n r, In sm sitemaps /\ net n sm = Some r /\ In u (sitemap_locs r)).
Proof.
  induction sitemaps as [|sm rest IH]; intros acc w u; cbn [collect_product_urls].
  - unfold ret. cbn. auto.
  - unfold bind.
    pose proof (retry_answer_from_net sm w) as Hans.
    destruct (requests_get_with_retry net sm w) as [[r|] w1]; cbn [fst] in Hans.
    + intros H. apply IH in H. destruct H as [H|(Hc & sm' & n & r' & Hin & Hn & Hu)].
      * apply in_app_or in H. destruct H as [H|H]; [now left|].
        apply filter_In in H. destruct H as [Hu Hc]. right. split; [assumption|].
        destruct (Hans r eq_refl) as [n Hn].
        exists sm, n, r. split; [now left|auto].
      * right. split; [assumption|]. exists sm', n, r'. split; [now right|auto].
    + intros H. apply IH in H. destruct H as [H|(Hc & sm' & n & r' & Hin & Hn & Hu)];
        [now left|].
      right. split; [assumption|]. exists sm', n, r'. split; [now right|auto].
Qed.

Lemma collect_product_urls_keeps (sitemaps : list str) :
  forall acc w u,
    In u acc -> In u (fst (collect_product_urls net sitemap_locs sitemaps acc w)).
Proof.
  induction sitemaps as [|sm rest IH]; intros acc w u Hu; cbn [collect_product_urls].
  - exact Hu.
  - unfold bind. destruct (requests_get_with_retry net sm w) as [[r|] w1].
    + apply IH. apply in_or_app. now left.
    + now apply IH.
Qed.

(** X6.  The product URLs collected from the sitemaps: every one contains
    "/products/" and is, unchanged, a location of a sitemap that answered;
    every such location of a sitemap that always answers is collected,
    whatever happens to the other sitemaps; and the URLs of a sitemap come
    before those of the sitemaps listed after it. *)
Theorem collected_urls_come_from_sitemaps (sitemaps : list str) (w : world) :
  (forall u,
     In u (fst (collect_product_urls net sitemap_locs sitemaps [] w)) ->
     contains (py "/products/") u = true /\
     exists sm n r, In sm sitemaps /\ net n sm = Some r /\ In u (sitemap_locs r)) /\
  (forall sm r u,
     In sm sitemaps -> (forall n, net n sm = Some r) ->
     In u (sitemap_locs r) -> contains (py "/products/") u = true ->
     In u (fst (collect_product_urls net sitemap_locs sitemaps [] w))) /\
  (forall sm rest, sitemaps = sm :: rest ->
     fst (collect_product_urls net sitemap_locs sitemaps [] w)
     = match fst (requests_get_with_retry net sm w) with
       | Some r => filter (contains (py "/products/")) (sitemap_locs r)
       | None => []
       end
       ++ fst (collect_product_urls net sitemap_locs rest []
                 (snd (requests_get_with_retry net sm w)))).
Proof.
  split; [|split].
  - intros u H. apply collect_product_urls_sound in H.
    destruct H as [[]|H]. exact H.
  - intros sm r u Hin Hrel Hu Hc. revert w.
    generalize (@nil str) as acc.
    induction sitemaps as [|sm' rest IH]; [contradiction|].
    intros acc w. cbn [collect_product_urls]. unfold bind.
    destruct Hin as [->|Hin].
    + pose proof (retry_reliable sm w r Hrel) as Hr.
      destruct (requests_get_with_retry net sm w) as [resp w1]. cbn [fst] in Hr.
      subst resp. apply collect_product_urls_keeps.
      apply in_or_app. right. apply filter_In. auto.
    + destruct (requests_get_with_retry net sm' w) as [[r'|] w1]; now apply IH.
  - intros sm rest ->. apply collect_product_urls_cons.
Qed.

End Fetch_Facts.

(* ================================================================== *)
(** * drop_duplicates                                                  *)
(* ================================================================== *)

Lemma seen_link (d : list product) (r : product) :
  existsb (fun r' => str_eqb (Link r') (Link r)) d = true <->
  In (Link r) (map Link d).
Proof.
  rewrite existsb_exists, in_map_iff. split.
  - intros (x & Hin & E). apply str_eqb_eq in E. eauto.
  - intros (x & E & Hin). exists x. split; [assumption|]. now apply str_eqb_eq.
Qed.

Lemma drop_duplicates_from (rows d : list product) :
  fold_left (fun d r => if existsb (fun r' => str_eqb (Link r') (Link r)) d
                        then d else d ++ [r]) rows d
  = d ++ kept_after d rows.
Proof.
  revert d. induction rows as [|r t IH]; intros d; cbn [fold_left kept_after].
  - now rewrite app_nil_r.
  - destruct (existsb (fun r' => str_eqb (Link r') (Link r)) d).
    + apply IH.
    + rewrite IH, <- app_assoc. reflexivity.
Qed.

Lemma drop_duplicates_kept (rows : list product) :
  drop_duplicates rows = kept_after [] rows.
Proof. unfold drop_duplicates. now rewrite drop_duplicates_from. Qed.

Lemma kept_after_first (rows : list product) :
  forall d r,
    In r (kept_after d rows) <->
    exists l1 l2, rows = l1 ++ r :: l2 /\ ~ In (Link r) (map Link (d ++ l1)).
Proof.
  induction rows as [|x t IH]; intros d r; cbn [kept_after].
  - split; [contradiction|]. intros (l1 & l2 & H & _). destruct l1; discriminate.
  - destruct (existsb (fun r' => str_eqb (Link r') (Link x)) d) eqn:E.
    + apply seen_link in E. rewrite IH. split.
      * intros (l1 & l2 & -> & Hn). exists (x :: l1), l2. split; [reflexivity|].
        rewrite map_app in *. cbn [map]. rewrite in_app_iff in *. cbn [In].
        intros [H|[H|H]]; [tauto| |tauto].
        apply Hn. left. now rewrite <- H.
      * intros (l1 & l2 & H & Hn). destruct l1 as [|y l1]; cbn [app] in H.
        -- inversion H; subst. exfalso. apply Hn. now rewrite app_nil_r.
        -- inversion H; subst. exists l1, l2. split; [reflexivity|].
           rewrite map_app in *. cbn [map] in Hn. rewrite in_app_iff in *.
           cbn [In] in Hn. tauto.
    + assert (Hx : ~ In (Link x) (map Link d)).
      { intros H. apply seen_link in H. congruence. }
      cbn [In]. rewrite IH. split.
      * intros [<-|(l1 & l2 & -> & Hn)].
        -- exists [], t. split; [reflexivity|]. now rewrite app_nil_r.
        -- exists (x :: l1), l2. split; [reflexivity|].
           now rewrite <- app_assoc in Hn.
      * intros (l1 & l2 & H & Hn). destruct l1 as [|y l1]; cbn [app] in H.
        -- inversion H; subst. now left.
        -- inversion H; subst. right. exists l1, l2. split; [reflexivity|].
           now rewrite <- app_assoc.
Qed.

Lemma kept_after_nodup (rows : list product) :
  forall d, NoDup (map Link (kept_after d rows)).
Proof.
  induction rows as [|x t IH]; intros d; cbn [kept_after]; [constructor|].
  destruct (existsb (fun r' => str_eqb (Link r') (Link x)) d); [apply IH|].
  cbn [map]. constructor; [|apply IH].
  intros H. apply in_map_iff in H. destruct H as (r & E & Hr).
  apply kept_after_first in Hr. destruct Hr as (l1 & l2 & _ & Hn).
  apply Hn. rewrite !map_app, !in_app_iff. cbn [map In]. left. right. left.
  now symmetry.
Qed.

Lemma kept_after_links (rows : list product) :
  forall d l,
    In l (map Link d) \/ In l (map Link (kept_after d rows)) <->
    In l (map Link d) \/ In l (map Link rows).
Proof.
  induction rows as [|x t IH]; intros d l; cbn [kept_after]; [tauto|].
  destruct (existsb (fun r' => str_eqb (Link r') (Link x)) d) eqn:E.
  - apply seen_link in E. rewrite IH. cbn [map In]. split; [tauto|].
    intros [H|[<-|H]]; auto.
  - cbn [map In]. specialize (IH (d ++ [x]) l).
    rewrite map_app, in_app_iff in IH. cbn [map In] in IH. tauto.
Qed.

Lemma kept_after_all (rows : list product) :
  forall d, NoDup (map Link (d ++ rows)) -> kept_after d rows = rows.
Proof.
  induction rows as [|x t IH]; intros d Hnd; cbn [kept_after]; [reflexivity|].
  assert (Hx : ~ In (Link x) (map Link d)).
  { rewrite map_app in Hnd. cbn [map] in Hnd.
    apply NoDup_remove_2 in Hnd. rewrite in_app_iff in Hnd. tauto. }
  destruct (existsb (fun r' => str_eqb (Link r') (Link x)) d) eqn:E.
  - apply seen_link in E. contradiction.
  - f_equal. apply IH. now rewrite <- app_assoc.
Qed.

(** X7.  [drop_duplicates] leaves a snapshot in which every link occurs once
    and no link of the input is lost; the row kept for a link is the first
    row with that link.  Rows whose links are already distinct are left as
    they are, so that removing duplicates twice changes nothing more. *)
Theorem drop_duplicates_keeps_first_rows (rows : list product) :
  NoDup (map Link (drop_duplicates rows)) /\
  (forall l, In l (map Link (drop_duplicates rows)) <-> In l (map Link rows)) /\
  (forall r, In r (drop_duplicates rows) <->
     exists l1 l2, rows = l1 ++ r :: l2 /\ ~ In (Link r) (map Link l1)) /\
  (NoDup (map Link rows) -> drop_duplicates rows = rows) /\
  drop_duplicates (drop_duplicates rows) = drop_duplicates rows.
Proof.
  rewrite !drop_duplicates_kept.
  assert (Hnd : NoDup (map Link (kept_after [] rows))) by apply kept_after_nodup.
  split; [exact Hnd|]. split; [|split; [|split]].
  - intros l. pose proof (kept_after_links rows [] l) as H. cbn [map In] in H. tauto.
  - intros r. apply (kept_after_first rows [] r).
  - intros H. now apply kept_after_all.
  - now apply kept_after_all.
Qed.

(* ================================================================== *)
(** * The crawl loop and the script                                    *)
(* ================================================================== *)

Lemma nodup_app_disjoint {A : Type} (l1 l2 : list A) (a : A) :
  NoDup (l1 ++ l2) -> In a l1 -> In a l2 -> False.
Proof.
  induction l1 as [|x l1 IH]; cbn [app]; intros Hnd H1 H2.
  - destruct H1.
  - apply NoDup_cons_iff in Hnd. destruct Hnd as [Hx Hnd].
    destruct H1 as [->|H1].
    + apply Hx, in_or_app. now right.
    + now apply IH.
Qed.

Section Loop_Facts.

Variable response : Type.
Variable net : nat -> str -> option response.
Variable sitemap_locs : response -> list str.
Variable parse_html : response -> soup.
Variable today : str.
Variable set_iter : list str -> list str.

Lemma scrape_page_link (sp : soup) (url : str) (row : product) :
  scrape_page today set_iter sp url = Some row -> Link row = url.
Proof.
  unfold scrape_page. destruct (scrape_prices set_iter sp) as [[s r]|]; [|discriminate].
  intros H. inversion H. reflexivity.
Qed.

Lemma scrape_products_account (urls : list str) :
  forall results errors w res err w',
    scrape_products net parse_html today set_iter urls results errors w
    = (Some (res, err), w') ->
    exists new failed,
      res = results ++ new /\ err = errors ++ failed /\
      Permutation (map Link new ++ failed) urls /\
      (NoDup urls ->
       map Link new = filter (fun u => negb (existsb (str_eqb u) failed)) urls) /\
      requests w + length urls <= requests w' <= requests w + 3 * length urls.
Proof.
  induction urls as [|url rest IH]; intros results errors w res err w'.
  - cbn. intros H. inversion H; subst. exists [], [].
    rewrite !app_nil_r. repeat split; auto; lia.
  - cbn [scrape_products]. unfold bind at 1.
    destruct (requests_get_with_retry_spec _ net url w) as (_ & Hreq & _).
    unfold MAX_RETRIES in Hreq.
    destruct (requests_get_with_retry net url w) as [resp w1]. cbn [snd] in Hreq.
    destruct resp as [r|].
    + destruct (scrape_page today set_iter (parse_html r) url) as [row|] eqn:Hrow;
        [|discriminate].
      pose proof (scrape_page_link _ _ _ Hrow) as Hlink. clear Hrow.
      rename Hlink into Hrow. unfold bind, sleep. intros H.
      apply IH in H. destruct H as (new & failed & -> & -> & Hperm & Hord & Hcount).
      cbn [requests] in Hcount.
      exists (row :: new), failed. rewrite <- app_assoc.
      split; [reflexivity|]. split; [reflexivity|]. split; [|split].
      * cbn [map app]. rewrite Hrow. now constructor.
      * intros Hnd. apply NoDup_cons_iff in Hnd. destruct Hnd as [Hnotin Hnd'].
        cbn [map filter]. rewrite Hrow.
        assert (Hf : existsb (str_eqb url) failed = false).
        { destruct (existsb (str_eqb url) failed) eqn:E; [|reflexivity].
          apply existsb_str_eqb in E. exfalso. apply Hnotin.
          eapply Permutation_in; [exact Hperm|]. apply in_or_app. now right. }
        rewrite Hf. cbn [negb]. f_equal. now apply Hord.
      * cbn [length]. lia.
    + intros H. apply IH in H.
      destruct H as (new & failed & -> & -> & Hperm & Hord & Hcount).
      exists new, (url :: failed). rewrite <- app_assoc.
      split; [reflexivity|]. split; [reflexivity|]. split; [|split].
      * apply Permutation_sym, Permutation_cons_app, Permutation_sym, Hperm.
      * intros Hnd. apply NoDup_cons_iff in Hnd. destruct Hnd as [Hnotin Hnd'].
        cbn [filter existsb].
        assert (Hu : str_eqb url url = true) by now apply str_eqb_eq.
        rewrite Hu. cbn [orb negb]. rewrite (Hord Hnd').
        apply filter_ext_in. intros u Hin.
        assert (Hne : str_eqb u url = false).
        { destruct (str_eqb u url) eqn:E; [|reflexivity].
          apply str_eqb_eq in E. subst. contradiction. }
        now rewrite Hne.
      * cbn [length]. lia.
Qed.

(** X8.  The crawl loop accounts for every URL exactly once: the links of the
    rows together with the errors are the URLs it was given, up to order;
    when the URLs are distinct the rows follow the order of the URLs that did
    not fail, so that no URL is both scraped and reported as an error.  It
    sends at least one and at most three requests per URL. *)
Theorem crawl_accounts_for_every_url
    (urls : list str) (w w' : world) (results : list product) (errors : list str) :
  scrape_products net parse_html today set_iter urls [] [] w
  = (Some (results, errors), w') ->
  Permutation (map Link results ++ errors) urls /\
  (NoDup urls ->
   map Link results = filter (fun u => negb (existsb (str_eqb u) errors)) urls /\
   NoDup (map Link results) /\ NoDup errors /\
   forall u, In u errors -> ~ In u (map Link results)) /\
  requests w + length urls <= requests w' <= requests w + 3 * length urls.
Proof.
  intros H. apply scrape_products_account in H.
  destruct H as (new & failed & -> & -> & Hperm & Hord & Hcount).
  cbn [app]. split; [exact Hperm|]. split; [|exact Hcount].
  intros Hnd. split; [now apply Hord|].
  assert (Hall : NoDup (map Link new ++ failed)).
  { eapply Permutation_NoDup; [apply Permutation_sym; exact Hperm|exact Hnd]. }
  split; [eapply NoDup_app_remove_r; exact Hall|].
  split; [eapply NoDup_app_remove_l; exact Hall|].
  intros u Hu Hl. exact (nodup_app_disjoint _ _ _ Hall Hl Hu).
Qed.

End Loop_Facts.

Lemma crawl_accounts_for_every_url_witness :
  let urls := [py "/products/a"; py "/products/b"] in
  let w' := {| requests := 6;
               slept := [inject_Z 2; inject_Z 4; inject_Z 2; inject_Z 4] |} in
  scrape_products net_down (fun r => r) (py "2024-01-01") (nodup str_eq_dec)
    urls [] [] start = (Some ([], urls), w') /\
  Permutation (map Link [] ++ urls) urls /\
  requests start + length urls <= requests w' <= requests start + 3 * length urls.
Proof.
  cbv zeta.
  assert (H : scrape_products net_down (fun r => r) (py "2024-01-01")
                (nodup str_eq_dec) [py "/products/a"; py "/products/b"] [] [] start
              = (Some ([], [py "/products/a"; py "/products/b"]),
                 {| requests := 6;
                    slept := [inject_Z 2; inject_Z 4; inject_Z 2; inject_Z 4] |}))
    by (vm_compute; reflexivity).
  split; [exact H|].
  pose proof (crawl_accounts_for_every_url soup net_down (fun r => r)
                (py "2024-01-01") (nodup str_eq_dec) _ _ _ _ _ H) as (H1 & _ & H3).
  split; [exact H1|exact H3].
Defined.

(* ================================================================== *)
(** * Scraper.py: the whole script                                     *)
(* ================================================================== *)

Lemma collect_product_urls_requests (response : Type)
    (net : nat -> str -> option response) (sitemap_locs : response -> list str)
    (sitemaps : list str) :
  forall acc w,
    requests w
    <= requests (snd (collect_product_urls net sitemap_locs sitemaps acc w)).
Proof.
  induction sitemaps as [|sm rest IH]; intros acc w; cbn [collect_product_urls].
  - cbn. lia.
  - unfold bind.
    destruct (requests_get_with_retry_spec _ net sm w) as (_ & Hreq & _).
    destruct (requests_get_with_retry net sm w) as [[r|] w1]; cbn [snd] in Hreq.
    + specialize (IH (acc ++ filter (contains (py "/products/")) (sitemap_locs r)) w1).
      lia.
    + specialize (IH acc w1). lia.
Qed.

Section Script_Facts.

Variable response : Type.
Variable net : nat -> str -> option response.
Variable sitemap_locs : response -> list str.
Variable parse_html : response -> soup.
Variable today : str.
Variable set_iter : list str -> list str.

Hypothesis set_iter_in : forall l x, In x (set_iter l) <-> In x l.

(** X9.  The script stops with [exit(1)] exactly when the master sitemap
    cannot be fetched, after three requests and pauses of 2 and 4 seconds,
    and nothing raises otherwise.  A finished run saves the rows as they were
    scraped: the product URLs are already distinct, so that
    [drop_duplicates] removes no row and the comparison is that of the saved
    snapshot; no URL is both saved and reported as a failure, and every one
    of them contains "/products/" and is a location of a sitemap that
    answered. *)
Theorem script_saves_what_it_scraped (old : stored_csv) (w : world) :
  let run := main net sitemap_locs parse_html today set_iter old w in
  (first_answer net MAIN_SITEMAP_URL (requests w) = None ->
   run = (Fatal, {| requests := requests w + 3;
                    slept := slept w ++ [inject_Z 2; inject_Z 4] |})) /\
  (first_answer net MAIN_SITEMAP_URL (requests w) <> None ->
   exists results errors,
     fst run = Done results (compare old results) errors /\
     drop_duplicates results = results /\
     NoDup (map Link results ++ errors) /\
     (forall u, In u (map Link results ++ errors) ->
        contains (py "/products/") u = true /\
        exists sm n r, net n sm = Some r /\ In u (sitemap_locs r)) /\
     requests w < requests (snd run)).
Proof.
  cbv zeta. unfold main, bind.
  destruct (requests_get_with_retry_spec _ net MAIN_SITEMAP_URL w)
    as (Hfst & Hreq & Hsnd).
  destruct (requests_get_with_retry net MAIN_SITEMAP_URL w) as [master w1].
  cbn [fst snd] in Hfst, Hreq, Hsnd. split.
  - intros Hnone. rewrite Hnone in Hfst. subst master.
    rewrite (Hsnd Hnone). reflexivity.
  - intros Hsome. destruct master as [m|]; [|congruence].
    pose proof (collect_product_urls_sound _ net sitemap_locs
                  (sitemap_urls sitemap_locs m) [] w1) as Hsound.
    pose proof (collect_product_urls_requests _ net sitemap_locs
                  (sitemap_urls sitemap_locs m) [] w1) as Hmore.
    destruct (collect_product_urls net sitemap_locs
                (sitemap_urls sitemap_locs m) [] w1) as [all_urls w2].
    cbn [fst snd] in Hsound, Hmore.
    destruct (scrape_products_spec _ net sitemap_locs parse_html today set_iter
                set_iter_in
                (fromkeys all_urls) [] [] w2)
      as (new_rows & failed & w' & Hrun & _).
    cbn [app] in Hrun. rewrite Hrun.
    pose proof (scrape_products_account _ net parse_html today set_iter
                  _ _ _ _ _ _ _ Hrun)
      as (new & failed' & Hn & Hf & Hperm & _ & Hcount).
    cbn [app] in Hn, Hf. subst new failed'.
    assert (Hnd : NoDup (map Link new_rows ++ failed)).
    { eapply Permutation_NoDup; [apply Permutation_sym; exact Hperm|].
      apply add_keys_nodup. constructor. }
    assert (Hkeep : drop_duplicates new_rows = new_rows).
    { rewrite drop_duplicates_kept. apply kept_after_all. cbn [app].
      eapply NoDup_app_remove_r. exact Hnd. }
    exists new_rows, failed. cbn [fst snd ret].
    split; [now rewrite Hkeep|]. split; [exact Hkeep|]. split; [exact Hnd|].
    split.
    + intros u Hu.
      apply (Permutation_in _ Hperm) in Hu.
      apply add_keys_in in Hu. destruct Hu as [[]|Hu].
      apply Hsound in Hu. destruct Hu as [[]|(Hc & sm & n & r & _ & Hn & Hu)].
      split; [exact Hc|]. exists sm, n, r. auto.
    + lia.
Qed.

End Script_Facts.

Lemma script_saves_what_it_scraped_witness :
  let locs := fun _ : soup =>
    [py "https://nidhiratna.com/sitemap_products_1.xml";
     py "https://nidhiratna.com/products/ring"] in
  (forall l x, In x (nodup str_eq_dec l) <-> In x l) /\
  exists results errors,
    fst (main net_up locs (fun r => r) (py "2024-01-01") (nodup str_eq_dec)
           NoFile start)
    = Done results (compare NoFile results) errors /\
    drop_duplicates results = results /\
    NoDup (map Link results ++ errors).
Proof.
  cbv zeta. split; [intros l x; apply nodup_In|].
  destruct (proj2 (script_saves_what_it_scraped soup net_up
                     (fun _ : soup =>
                        [py "https://nidhiratna.com/sitemap_products_1.xml";
                         py "https://nidhiratna.com/products/ring"])
                     (fun r => r) (py "2024-01-01") (nodup str_eq_dec)
                     (fun l x => nodup_In str_eq_dec l x) NoFile start))
    as (results & errors & H1 & H2 & H3 & _).
  - discriminate.
  - exists results, errors. split; [exact H1|]. split; [exact H2|exact H3].
Defined.

(* ================================================================== *)
(** * Scraper.py: what the comparison logs                             *)
(* ================================================================== *)

Lemma not_listed (l : str) (links : list str) :
  negb (existsb (str_eqb l) links) = true <-> ~ In l links.
Proof.
  rewrite negb_true_iff, <- existsb_str_eqb.
  destruct (existsb (str_eqb l) links); split; congruence.
Qed.

Lemma drop_duplicates_links (rows : list product) (l : str) :
  In l (map Link (drop_duplicates rows)) <-> In l (map Link rows).
Proof.
  rewrite drop_duplicates_kept.
  pose proof (kept_after_links rows [] l) as H. cbn [map In] in H. tauto.
Qed.

Lemma merge_inner_spec (old_df new_df : list product) (o n : product) :
  In (o, n) (merge_inner old_df new_df) <->
  In o old_df /\ In n new_df /\ Link o = Link n.
Proof.
  unfold merge_inner. rewrite in_flat_map. split.
  - intros (o' & Ho & H). apply in_map_iff in H. destruct H as (n' & E & Hn).
    inversion E; subst. apply filter_In in Hn. destruct Hn as [Hn Hl].
    apply str_eqb_eq in Hl. auto.
  - intros (Ho & Hn & Hl). exists o. split; [exact Ho|].
    apply in_map_iff. exists n. split; [reflexivity|].
    apply filter_In. split; [exact Hn|]. now apply str_eqb_eq.
Qed.

(** X10.  What the comparison logs with a readable previous file whose price
    columns are read as text (each is blank throughout or has a price with its
    currency symbol).  An empty crawl is compared with nothing: not even a
    removed product is reported.  Otherwise a product is new exactly when it
    was scraped and its link is not in the file; a link is removed exactly
    when it is in the file and was not scraped, and it is listed once; a
    price change is a pair of a row of the file and a row of the snapshot
    with the same link that passes the test on the prices.  The three lists
    are about different links. *)
Theorem comparison_report (old_df results : list product) :
  text_prices old_df ->
  let report := compare (Frame old_df) results in
  (results = [] -> report = nothing_logged) /\
  (results <> [] ->
   (forall r, In r (new_products report) <->
      In r results /\ ~ In (Link r) (map Link old_df)) /\
   NoDup (removed_products report) /\
   (forall l, In l (removed_products report) <->
      In l (map Link old_df) /\ ~ In l (map Link results)) /\
   (forall o n, In (o, n) (price_changes report) <->
      In o old_df /\ In n (drop_duplicates results) /\ Link o = Link n /\
      price_changed (o, n) = true) /\
   (forall r l, In r (new_products report) -> In l (removed_products report) ->
      Link r <> l) /\
   (forall o n, In (o, n) (price_changes report) ->
      ~ In (Link n) (map Link (new_products report)) /\
      ~ In (Link o) (removed_products report))).
Proof.
  intros _. cbv zeta. split; [intros ->; reflexivity|].
  intros Hne. destruct results as [|r0 rest]; [congruence|].
  set (results := r0 :: rest). unfold compare. fold results.
  cbn [new_products removed_products price_changes].
  assert (Hnew : forall r,
            In r (filter (fun item =>
                    negb (existsb (str_eqb (Link item)) (map Link old_df))) results)
            <-> In r results /\ ~ In (Link r) (map Link old_df)).
  { intros r. rewrite filter_In, not_listed. tauto. }
  assert (Hrem : forall l,
            In l (filter (fun l => negb (existsb (str_eqb l)
                                          (map Link (drop_duplicates results))))
                    (fromkeys (map Link old_df)))
            <-> In l (map Link old_df) /\ ~ In l (map Link results)).
  { intros l. rewrite filter_In, not_listed, drop_duplicates_links.
    unfold fromkeys. rewrite add_keys_in. cbn [In]. tauto. }
  assert (Hchg : forall o n,
            In (o, n) (filter price_changed
                         (merge_inner old_df (drop_duplicates results)))
            <-> In o old_df /\ In n (drop_duplicates results) /\
                Link o = Link n /\ price_changed (o, n) = true).
  { intros o n. rewrite filter_In, merge_inner_spec. tauto. }
  split; [exact Hnew|]. split.
  { apply NoDup_filter. apply add_keys_nodup. constructor. }
  split; [exact Hrem|]. split; [exact Hchg|]. split.
  - intros r l Hr Hl E. apply Hnew in Hr. apply Hrem in Hl. subst l. tauto.
  - intros o n H. apply Hchg in H. destruct H as (Ho & Hn & Hl & _). split.
    + intros H. apply in_map_iff in H. destruct H as (r & E & Hr).
      apply Hnew in Hr. destruct Hr as [_ Hr]. apply Hr. rewrite E, <- Hl.
      now apply in_map.
    + intros H. apply Hrem in H. destruct H as [_ H]. apply H.
      rewrite Hl. apply drop_duplicates_links. now apply in_map.
Qed.

Lemma comparison_report_witness :
  let old_df := [row_of (py "/p1") (py "$8.00") (py "$10.00");
                 row_of (py "/p3") (py "$1.00") (py "$1.00")] in
  let results := [row_of (py "/p1") (py "$10.00") (py "$10.00");
                  row_of (py "/p2") (py "$3.00") (py "$4.00")] in
  text_prices old_df /\
  (forall r, In r (new_products (compare (Frame old_df) results)) <->
     In r results /\ ~ In (Link r) (map Link old_df)) /\
  (forall l, In l (removed_products (compare (Frame old_df) results)) <->
     In l (map Link old_df) /\ ~ In l (map Link results)).
Proof.
  cbv zeta.
  assert (H : text_prices [row_of (py "/p1") (py "$8.00") (py "$10.00");
                           row_of (py "/p3") (py "$1.00") (py "$1.00")]).
  { split; right.
    - exists (py "$8.00"). split; [left; reflexivity|reflexivity].
    - exists (py "$10.00"). split; [left; reflexivity|reflexivity]. }
  split; [exact H|].
  destruct (proj2 (comparison_report _
                     [row_of (py "/p1") (py "$10.00") (py "$10.00");
                      row_of (py "/p2") (py "$3.00") (py "$4.00")] H))
    as (Hnew & _ & Hrem & _).
  - discriminate.
  - split; [exact Hnew|exact Hrem].
Defined.

Lemma filter_none {A : Type} (f : A -> bool) (l : list A) :
  (forall x, In x l -> f x = false) -> filter f l = [].
Proof.
  induction l as [|a l IH]; intros H; [reflexivity|].
  cbn [filter]. rewrite (H a (or_introl eq_refl)). apply IH.
  intros x Hx. apply H. now right.
Qed.

Lemma nodup_map_inj {A B : Type} (f : A -> B) (l : list A) (a b : A) :
  NoDup (map f l) -> In a l -> In b l -> f a = f b -> a = b.
Proof.
  induction l as [|x l IH]; intros Hnd Ha Hb E; [destruct Ha|].
  cbn [map] in Hnd. apply NoDup_cons_iff in Hnd. destruct Hnd as [Hx Hnd].
  destruct Ha as [->|Ha]; destruct Hb as [->|Hb].
  - reflexivity.
  - exfalso. apply Hx. rewrite E. now apply in_map.
  - exfalso. apply Hx. rewrite <- E. now apply in_map.
  - now apply IH.
Qed.

Lemma drop_duplicates_incl (rows : list product) (r : product) :
  In r (drop_duplicates rows) -> In r rows.
Proof.
  rewrite drop_duplicates_kept. intros H. apply kept_after_first in H.
  destruct H as (l1 & l2 & -> & _). apply in_or_app. right. now left.
Qed.

Lemma reloaded_links (results : list product) :
  map Link (reloaded results) = map Link (drop_duplicates results).
Proof. unfold reloaded. rewrite map_map. reflexivity. Qed.

(** A row of the crawl read back from the file does not differ from itself
    in the eyes of the test on the prices. *)
Lemma price_unchanged_on_reload (r : product) :
  crawl_row r -> price_changed (reload r, r) = false.
Proof.
  intros (sale & regular & Hs & Hr & [[-> ->]|[Hcs Hcr]]);
    unfold price_changed, reload; cbn [fst snd Sale_Price Regular_Price];
    rewrite Hs, Hr.
  - cbn [py_truthy]. apply andb_false_r.
  - apply canonical_not_empty in Hcs, Hcr.
    destruct sale as [|a s]; [congruence|].
    destruct regular as [|b t]; [congruence|].
    cbn [read_cell py_ne py_truthy].
    assert (E1 : str_eqb (a :: s) (a :: s) = true) by now apply str_eqb_eq.
    assert (E2 : str_eqb (b :: t) (b :: t) = true) by now apply str_eqb_eq.
    rewrite E1, E2. reflexivity.
Qed.

Lemma symbol_row_prices (r : product) :
  symbol_row r ->
  symbol_price (Sale_Price r) /\ symbol_price (Regular_Price r) /\ crawl_row r.
Proof.
  intros (sale & regular & Hs & Hr & H). rewrite Hs, Hr. cbn [symbol_price].
  destruct H as [[-> ->]|[[Hcs Hss] [Hcr Hsr]]].
  - split; [now left|]. split; [now left|].
    exists [], []. split; [exact Hs|]. split; [exact Hr|]. now left.
  - split; [right; now split|]. split; [right; now split|].
    exists sale, regular. split; [exact Hs|]. split; [exact Hr|]. right. now split.
Qed.

(** A column of blank cells and of prices with their symbol is read back as
    text or, when it is blank throughout, as NaN. *)
Lemma read_back_as_text (f : product -> pyval) (rows : list product) :
  Forall (fun r => symbol_price (f r)) rows ->
  text_column (map (fun r => read_cell (f r)) rows).
Proof.
  induction 1 as [|r rows Hr _ IH]; [left; intros v []|].
  cbn [map]. destruct (f r) as [p|]; [|destruct Hr].
  destruct Hr as [->|[_ Hp]].
  - cbn [read_cell]. destruct IH as [IH|(p & Hin & Hp)].
    + left. intros v [<-|Hv]; [reflexivity|now apply IH].
    + right. exists p. split; [now right|exact Hp].
  - right. exists p. split; [|exact Hp]. left.
    destruct p as [|a p]; [discriminate|reflexivity].
Qed.

(** X11.  On a site that shows its prices with the currency symbol, a crawl
    compared with the file it has just saved logs nothing: no price change,
    no new product, no removed product.  The price columns of that file are
    read back as text (or as NaN throughout when no page had a price).  The
    result rests on the two prices of a row being both blank or both
    present: a blank price comes back from the file as NaN, which differs
    from every value, and only the blank sale price of the new row keeps
    such a row out of the log. *)
Theorem rerun_on_own_file_logs_nothing (results : list product) :
  Forall symbol_row results ->
  text_prices (reloaded results) /\
  compare (Frame (reloaded results)) results = nothing_logged.
Proof.
  intros Hsym.
  assert (Hrows : Forall crawl_row results).
  { eapply Forall_impl; [|exact Hsym]. intros r Hr. now apply symbol_row_prices. }
  assert (Hkept : Forall symbol_row (drop_duplicates results)).
  { rewrite Forall_forall in *. intros r Hr. apply Hsym.
    now apply drop_duplicates_incl. }
  split.
  { unfold text_prices, reloaded. rewrite !map_map. cbn [reload Sale_Price Regular_Price].
    split; apply read_back_as_text; (eapply Forall_impl; [|exact Hkept]);
      intros r Hr; now apply symbol_row_prices. }
  clear Hsym Hkept.
  destruct results as [|r0 rest]; [reflexivity|].
  unfold compare, nothing_logged. set (results := r0 :: rest) in *.
  rewrite reloaded_links. f_equal.
  - apply filter_none. intros [o n] H. apply merge_inner_spec in H.
    destruct H as (Ho & Hn & Hl). unfold reloaded in Ho.
    apply in_map_iff in Ho. destruct Ho as (n' & <- & Hn').
    assert (E : n' = n).
    { apply (nodup_map_inj Link (drop_duplicates results)); auto.
      rewrite drop_duplicates_kept. apply kept_after_nodup. }
    subst n'. apply price_unchanged_on_reload.
    rewrite Forall_forall in Hrows. apply Hrows. now apply drop_duplicates_incl.
  - apply filter_none. intros r Hr.
    apply negb_false_iff, existsb_str_eqb, drop_duplicates_links.
    now apply in_map.
  - apply filter_none. intros l Hl.
    apply negb_false_iff, existsb_str_eqb.
    unfold fromkeys in Hl. apply add_keys_in in Hl. destruct Hl as [[]|Hl].
    exact Hl.
Qed.

Lemma rerun_on_own_file_logs_nothing_witness :
  let results := [row_of (py "/products/a") (py "$15.00") (py "$20.00");
                  row_of (py "/products/b") [] []] in
  Forall symbol_row results /\
  text_prices (reloaded results) /\
  compare (Frame (reloaded results)) results = nothing_logged.
Proof.
  cbv zeta.
  assert (H : Forall symbol_row
                [row_of (py "/products/a") (py "$15.00") (py "$20.00");
                 row_of (py "/products/b") [] []]).
  { constructor; [|constructor; [|constructor]].
    - exists (py "$15.00"), (py "$20.00").
      split; [reflexivity|]. split; [reflexivity|]. right. split.
      + split; [|reflexivity].
        exists (py "$"), (py "15"), (py ".00").
        split; [reflexivity|]. split; [right; left; reflexivity|].
        split; [discriminate|]. split; [reflexivity|].
        right. exists "0"%char, "0"%char. split; [reflexivity|].
        split; reflexivity.
      + split; [|reflexivity].
        exists (py "$"), (py "20"), (py ".00").
        split; [reflexivity|]. split; [right; left; reflexivity|].
        split; [discriminate|]. split; [reflexivity|].
        right. exists "0"%char, "0"%char. split; [reflexivity|].
        split; reflexivity.
    - exists [], []. split; [reflexivity|]. split; [reflexivity|].
      left. split; reflexivity. }
  split; [exact H|].
  exact (rerun_on_own_file_logs_nothing _ H).
Defined.

(* ================================================================== *)
(** * app.py: links in normal form                                     *)
(* ================================================================== *)

Lemma lower_char_upper (c : ascii) :
  is_upper c = true -> nat_of_ascii (lower_char c) = nat_of_ascii c + 32.
Proof. by_cases_on_char c. Qed.

Lemma lower_char_other (c : ascii) : is_upper c = false -> lower_char c = c.
Proof. unfold lower_char, is_upper. cbv zeta. now intros ->. Qed.

Lemma lower_char_not_upper (c : ascii) : is_upper (lower_char c) = false.
Proof. by_cases_on_char c. Qed.

Lemma lower_char_slash (c : ascii) : lower_char c = "/"%char -> c = "/"%char.
Proof. by_cases_on_char c. Qed.

Lemma nat_of_ascii_inj (a b : ascii) : nat_of_ascii a = nat_of_ascii b -> a = b.
Proof.
  intros H. rewrite <- (ascii_nat_embedding a), <- (ascii_nat_embedding b).
  now rewrite H.
Qed.

Lemma lower_char_same_letter (a b : ascii) :
  lower_char a = lower_char b -> same_letter a b.
Proof.
  intros E. unfold same_letter.
  destruct (is_upper a) eqn:Ha; destruct (is_upper b) eqn:Hb.
  - left. apply nat_of_ascii_inj.
    pose proof (lower_char_upper a Ha). pose proof (lower_char_upper b Hb).
    rewrite E in *. lia.
  - right. left. split; [reflexivity|].
    rewrite (lower_char_other b Hb) in E. rewrite <- E.
    now apply lower_char_upper.
  - right. right. split; [reflexivity|].
    rewrite (lower_char_other a Ha) in E. rewrite E.
    now apply lower_char_upper.
  - left. now rewrite (lower_char_other a Ha), (lower_char_other b Hb) in E.
Qed.

Lemma lower_same_letters_inv (x : str) :
  forall y, lower x = lower y -> Forall2 same_letter x y.
Proof.
  induction x as [|a x IH]; intros [|b y] E; try discriminate; constructor.
  - apply lower_char_same_letter. now inversion E.
  - apply IH. now inversion E.
Qed.

Lemma drop_while_split (p : ascii -> bool) (x : str) :
  exists pre, x = pre ++ drop_while p x /\ forallb p pre = true.
Proof.
  induction x as [|c t (pre & IH & Hp)]; cbn [drop_while].
  - exists []. split; reflexivity.
  - destruct (p c) eqn:E.
    + exists (c :: pre). cbn [app forallb]. rewrite E, Hp. split; [|reflexivity].
      now rewrite <- IH.
    + exists []. split; reflexivity.
Qed.

Lemma all_equal_repeat (c : ascii) (x : str) :
  forallb (Ascii.eqb c) x = true -> x = repeat c (length x).
Proof.
  induction x as [|a t IH]; [reflexivity|]. cbn [forallb length repeat].
  intros H. apply andb_prop in H. destruct H as [H1 H2].
  apply Ascii.eqb_eq in H1. subst a. f_equal. now apply IH.
Qed.

Lemma rstrip_char_split (c : ascii) (x : str) :
  exists n, x = rstrip_char c x ++ repeat c n.
Proof.
  unfold rstrip_char.
  destruct (drop_while_split (Ascii.eqb c) (rev x)) as (pre & E & Hp).
  exists (length pre).
  rewrite <- (rev_involutive x) at 1. rewrite E at 1. rewrite rev_app_distr.
  f_equal. rewrite (all_equal_repeat c pre Hp) at 1. apply rev_repeat.
Qed.

Lemma drop_while_head (p : ascii -> bool) (x : str) (c : ascii) (t : str) :
  drop_while p x = c :: t -> p c = false.
Proof.
  induction x as [|a x IH]; cbn [drop_while]; [discriminate|].
  destruct (p a) eqn:E; [exact IH|]. intros H. inversion H; subst. exact E.
Qed.

Lemma rstrip_char_end (c : ascii) (x y : str) : rstrip_char c x <> y ++ [c].
Proof.
  unfold rstrip_char. intros H.
  apply (f_equal (@rev ascii)) in H. rewrite rev_involutive, rev_app_distr in H.
  cbn [rev app] in H. apply drop_while_head in H.
  now rewrite Ascii.eqb_refl in H.
Qed.

Lemma lower_repeat_slash (s : str) (n : nat) :
  lower s = repeat "/"%char n -> s = repeat "/"%char n.
Proof.
  revert n. induction s as [|a s IH]; intros [|n] E; try discriminate;
    [reflexivity|].
  cbn [lower map repeat] in E.
  assert (E1 : lower_char a = "/"%char) by congruence.
  assert (E2 : lower s = repeat "/"%char n) by (unfold lower; congruence).
  rewrite (lower_char_slash a E1). cbn [repeat]. f_equal. now apply IH.
Qed.

(** Every link is a string with the normal form as its lower-case version,
    followed by slashes. *)
Lemma normalize_link_split (x : str) :
  exists x0 n, x = x0 ++ repeat "/"%char n /\ lower x0 = App.normalize_link x.
Proof.
  unfold App.normalize_link.
  destruct (rstrip_char_split "/" (lower x)) as [n E].
  unfold lower in E at 1. apply map_eq_app in E.
  destruct E as (x0 & s & -> & E0 & Es).
  exists x0, n. split; [|exact E0].
  f_equal. now apply lower_repeat_slash.
Qed.

Lemma lower_not_upper (x : str) : existsb is_upper (lower x) = false.
Proof.
  induction x as [|c x IH]; [reflexivity|].
  cbn [lower map existsb]. now rewrite lower_char_not_upper.
Qed.

(** X12.  The normal form of a link of ASCII characters: it has no capital
    letter and no trailing slash, it differs from the link only by letter
    case and trailing slashes, and normalising it again changes nothing.
    Two links have the same normal form exactly when they differ only by
    letter case or trailing slashes, so that the dashboard joins no other
    pairs of records. *)
Theorem normalize_link_normal_form (x : str) :
  ascii_only x = true ->
  App.normalize_link (App.normalize_link x) = App.normalize_link x /\
  ~ ends_with_slash (App.normalize_link x) /\
  existsb is_upper (App.normalize_link x) = false /\
  same_product_link x (App.normalize_link x) /\
  (forall y, ascii_only y = true ->
     (App.normalize_link x = App.normalize_link y <-> same_product_link x y)).
Proof.
  intros _.
  assert (Hself : same_product_link x (App.normalize_link x)).
  { destruct (normalize_link_split x) as (x0 & n & Hx & Hl).
    exists x0, (App.normalize_link x), n, 0.
    split; [exact Hx|]. split; [cbn [repeat]; now rewrite app_nil_r|].
    rewrite <- Hl. apply lower_same_letters_inv.
    unfold lower. rewrite map_map. apply map_ext.
    intros c. symmetry. apply lower_char_other, lower_char_not_upper. }
  split; [symmetry; now apply normalize_link_same_product|].
  split; [intros [y Hy]; exact (rstrip_char_end _ _ _ Hy)|].
  split.
  { destruct (rstrip_char_split "/" (lower x)) as [n E].
    pose proof (lower_not_upper x) as H. rewrite E, existsb_app in H.
    now apply orb_false_elim in H. }
  split; [exact Hself|].
  intros y _. split; [|apply normalize_link_same_product].
  intros E.
  destruct (normalize_link_split x) as (x0 & n & Hx & Hlx).
  destruct (normalize_link_split y) as (y0 & m & Hy & Hly).
  exists x0, y0, n, m. split; [exact Hx|]. split; [exact Hy|].
  apply lower_same_letters_inv. congruence.
Qed.

Lemma normalize_link_normal_form_witness :
  let x := py "https://Shop.com/Products/Ring//" in
  ascii_only x = true /\
  App.normalize_link (App.normalize_link x) = App.normalize_link x /\
  same_product_link x (App.normalize_link x).
Proof.
  cbv zeta.
  assert (H : ascii_only (py "https://Shop.com/Products/Ring//") = true)
    by reflexivity.
  split; [exact H|].
  destruct (normalize_link_normal_form _ H) as (H1 & _ & _ & H4 & _).
  split; [exact H1|exact H4].
Defined.

(* ================================================================== *)
(** * app.py: prices as numbers                                        *)
(* ================================================================== *)

Lemma plain_char_no_comma (c : ascii) :
  is_digit c || Ascii.eqb "." c = true -> negb (Ascii.eqb "," c) = true.
Proof. by_cases_on_char c. Qed.

Lemma plain_no_comma (x : str) :
  plain x = true -> str_replace (py ",") [] x = x.
Proof.
  intros H. change (py ",") with [","%char]. rewrite str_replace_char_filter.
  apply filter_id. unfold plain in H. rewrite forallb_forall in H.
  apply forallb_forall. intros c Hc. apply plain_char_no_comma. now apply H.
Qed.

Lemma parse_number_text_value (ds fr : str) :
  number_text ds fr ->
  exists q, parse_number (ds ++ fr) = Some q /\ two_decimals q.
Proof.
  intros (Hne & Hds & Hf).
  destruct ds as [|d ds]; [contradiction|].
  assert (Hd : is_digit d = true)
    by (cbn [forallb] in Hds; apply andb_prop in Hds; tauto).
  unfold parse_number, two_decimals.
  assert (Hip : opt_digitpart ((d :: ds) ++ fr) = (d :: ds, fr)).
  { unfold opt_digitpart. cbn [app]. rewrite Hd.
    change (d :: ds ++ fr) with ((d :: ds) ++ fr).
    apply digitpart_digits; [assumption|].
    destruct Hf as [->|(d1 & d2 & -> & _)]; [exact I|]. split; reflexivity. }
  rewrite Hip.
  destruct Hf as [->|(d1 & d2 & -> & Hd1 & Hd2)].
  - cbn [negb opt_exponent length app]. eexists. split; [reflexivity|].
    generalize (digits_val (d :: ds ++ [])). intros N. cbn.
    apply Z.mod_1_r.
  - change (Ascii.eqb "." ".") with true. cbv iota.
    assert (Hfp : opt_digitpart [d1; d2] = ([d1; d2], [])).
    { unfold opt_digitpart. rewrite Hd1.
      change [d1; d2] with ([d1; d2] ++ []).
      apply digitpart_digits; [|exact I]. cbn. now rewrite Hd1, Hd2. }
    rewrite Hfp. cbn [negb opt_exponent length app]. eexists.
    split; [reflexivity|].
    generalize (digits_val (d :: ds ++ [d1; d2])). intros N. cbn.
    apply Z.mod_mul. discriminate.
Qed.

Lemma py_float_number_value (ds fr : str) :
  number_text ds fr ->
  exists q, py_float (ds ++ fr) = Some (FNum q) /\ two_decimals q.
Proof.
  intros H. pose proof (number_text_plain ds fr H) as Hp.
  destruct (parse_number_text_value ds fr H) as (q & Hq & Hq2).
  destruct H as (Hne & Hds & Hf).
  destruct ds as [|d ds]; [contradiction|].
  assert (Hd : is_digit d = true)
    by (cbn [forallb] in Hds; apply andb_prop in Hds; tauto).
  unfold py_float. rewrite (strip_no_space _ (plain_no_space _ Hp)).
  cbn [app opt_sign]. rewrite (digit_not_minus d Hd), (digit_not_plus d Hd).
  cbn [app] in Hq. rewrite Hq.
  assert (Hw : forall w0 w, w0 = "i"%char \/ w0 = "n"%char ->
            str_eqb (lower (d :: ds ++ fr)) (w0 :: w) = false).
  { intros w0 w Hw0. unfold str_eqb.
    destruct (str_eq_dec (lower (d :: ds ++ fr)) (w0 :: w)) as [E|]; [|reflexivity].
    cbn [lower map] in E. inversion E as [[E1 E2]].
    rewrite (digit_lower d Hd) in E1.
    destruct (digit_not_letter d Hd) as [Hi Hn].
    destruct Hw0; subst; contradiction. }
  change (py "inf") with ("i"%char :: py "nf").
  change (py "infinity") with ("i"%char :: py "nfinity").
  change (py "nan") with ("n"%char :: py "an").
  rewrite (Hw "i"%char (py "nf")), (Hw "i"%char (py "nfinity")),
    (Hw "n"%char (py "an")) by auto.
  cbn [orb]. exists q. split; [reflexivity|exact Hq2].
Qed.

(** Rounding to two decimals leaves a number of two decimals as it is. *)
Lemma round2_two_decimals (q : Q) :
  two_decimals q -> exists q', round2 (FNum q) = FNum q' /\ (q' == q)%Q.
Proof.
  unfold two_decimals. intros H. destruct q as [n d]. cbn [Qnum Qden] in H.
  unfold round2. eexists. split; [reflexivity|].
  unfold round_half_even. cbn [Qmult Qnum Qden]. cbv zeta.
  rewrite Pos.mul_1_r, H. cbn [Z.mul].
  change (0 <? Z.pos d)%Z with true. cbv iota.
  unfold Qeq. cbn [Qnum Qden].
  apply Z.div_exact in H; [|discriminate]. lia.
Qed.

(** The dashboard reads a price of the crawl as the scraper's sort key
    does; rounding does not change it. *)
Lemma safe_float_canonical (p : str) :
  canonical_price p ->
  exists q q', price_key p = Some (FNum q) /\
               App.safe_float (VStr p) = Some (FNum q') /\ (q' == q)%Q.
Proof.
  intros H. unfold price_key, App.safe_float. cbn [App.py_str].
  destruct (strip_symbols_canonical p H) as (ds & fr & -> & Hn).
  pose proof (number_text_plain ds fr Hn) as Hp.
  rewrite (plain_no_comma _ Hp), (strip_no_space _ (plain_no_space _ Hp)).
  destruct (py_float_number_value ds fr Hn) as (q & Hq & Hq2). rewrite Hq.
  destruct (round2_two_decimals q Hq2) as (q' & Hr & He). rewrite Hr.
  exists q, q'. split; [reflexivity|]. split; [reflexivity|exact He].
Qed.

(** X13.  What [safe_float] makes of the cells of a snapshot.  A blank cell
    is no number; a cell that pandas read as NaN is the number NaN; a price
    as the scraper writes it is always a number, the one the scraper itself
    sorted it by, and rounding to two decimals does not change its value. *)
Theorem safe_float_reads_snapshot_cells :
  App.safe_float (VStr []) = None /\
  App.safe_float VNaN = Some FNaN /\
  (forall p, canonical_price p ->
     exists q q', price_key p = Some (FNum q) /\
                  App.safe_float (VStr p) = Some (FNum q') /\ (q' == q)%Q).
Proof.
  split; [reflexivity|]. split; [vm_compute; reflexivity|].
  exact safe_float_canonical.
Qed.

(* ================================================================== *)
(** * app.py: the left join with the previous prices                   *)
(* ================================================================== *)

Lemma merge_left_blocks (df : list product) (prev : list (str * (pyval * pyval))) :
  App.merge_left df prev = flat_map (joined_rows prev) df.
Proof. reflexivity. Qed.

Lemma joined_rows_current (prev : list (str * (pyval * pyval))) (c : product) :
  exists n, map App.current (joined_rows prev c) = c :: repeat c n.
Proof.
  unfold joined_rows.
  destruct (filter (fun q => str_eqb (Link c) (fst q)) prev) as [|q qs].
  - exists 0. reflexivity.
  - exists (length qs). cbn [map App.current]. f_equal.
    induction qs as [|a qs IH]; [reflexivity|]. cbn [map App.current length repeat].
    now rewrite IH.
Qed.

Lemma matches_of_distinct_keys (prev : list (str * (pyval * pyval))) (l : str) :
  NoDup (map fst prev) ->
  length (filter (fun q => str_eqb l (fst q)) prev) <= 1.
Proof.
  induction prev as [|a prev IH]; intros Hnd; [cbn; lia|].
  cbn [map] in Hnd. apply NoDup_cons_iff in Hnd. destruct Hnd as [Ha Hnd].
  cbn [filter]. destruct (str_eqb l (fst a)) eqn:E; [|auto].
  apply str_eqb_eq in E. subst l. rewrite filter_none; [cbn; lia|].
  intros q Hq. destruct (str_eqb (fst a) (fst q)) eqn:E; [|reflexivity].
  apply str_eqb_eq in E. exfalso. apply Ha. rewrite E. now apply in_map.
Qed.

Lemma joined_rows_once (prev : list (str * (pyval * pyval))) (c : product) :
  NoDup (map fst prev) -> map App.current (joined_rows prev c) = [c].
Proof.
  intros Hnd. pose proof (matches_of_distinct_keys prev (Link c) Hnd) as H.
  unfold joined_rows.
  destruct (filter (fun q => str_eqb (Link c) (fst q)) prev) as [|q [|q' qs]];
    [reflexivity|reflexivity|cbn in H; lia].
Qed.

Lemma joined_rows_origin (prev : list (str * (pyval * pyval))) (c : product)
    (row : App.merged_row) :
  In row (joined_rows prev c) ->
  App.current row = c /\
  ((~ In (Link c) (map fst prev) /\
    App.Sale_Price_old row = VNaN /\ App.Regular_Price_old row = VNaN) \/
   In (Link c, (App.Sale_Price_old row, App.Regular_Price_old row)) prev).
Proof.
  unfold joined_rows.
  destruct (filter (fun q => str_eqb (Link c) (fst q)) prev) as [|q qs] eqn:E.
  - intros [<-|[]]. split; [reflexivity|]. left. split; [|split; reflexivity].
    intros H. apply in_map_iff in H. destruct H as (q & Hq & Hin).
    assert (Hf : In q (filter (fun q => str_eqb (Link c) (fst q)) prev)).
    { apply filter_In. split; [exact Hin|]. now apply str_eqb_eq. }
    rewrite E in Hf. destruct Hf.
  - intros H. apply in_map_iff in H. destruct H as (q' & <- & Hq').
    split; [reflexivity|]. right. cbn [App.Sale_Price_old App.Regular_Price_old].
    rewrite <- E in Hq'. apply filter_In in Hq'. destruct Hq' as [Hin Hl].
    apply str_eqb_eq in Hl. rewrite Hl.
    destruct q' as [l [s r]]. exact Hin.
Qed.

(** X14.  The left join of the current products with the previous prices
    loses no product and invents none, and keeps their order; a product is
    joined with each previous record of its link, or once with NaN prices
    when there is none.  The merged frame has at least as many rows as there
    are products, and it holds every product exactly once when the links of
    the previous snapshot are distinct. *)
Theorem left_join_keeps_every_product
    (df : list product) (prev : list (str * (pyval * pyval))) :
  (forall c, In c (map App.current (App.merge_left df prev)) <-> In c df) /\
  length df <= length (App.merge_left df prev) /\
  (NoDup (map fst prev) -> map App.current (App.merge_left df prev) = df) /\
  (forall row, In row (App.merge_left df prev) ->
     (~ In (Link (App.current row)) (map fst prev) /\
      App.Sale_Price_old row = VNaN /\ App.Regular_Price_old row = VNaN) \/
     In (Link (App.current row),
         (App.Sale_Price_old row, App.Regular_Price_old row)) prev).
Proof.
  rewrite merge_left_blocks. split; [|split; [|split]].
  - intros c. rewrite in_map_iff. split.
    + intros (row & <- & Hrow). apply in_flat_map in Hrow.
      destruct Hrow as (c' & Hc' & Hrow).
      apply joined_rows_origin in Hrow. destruct Hrow as [-> _]. exact Hc'.
    + intros Hc. destruct (joined_rows_current prev c) as [n Hn].
      destruct (joined_rows prev c) as [|row rows] eqn:E; [discriminate|].
      exists row. split; [now inversion Hn|].
      apply in_flat_map. exists c. split; [exact Hc|]. rewrite E. now left.
  - induction df as [|c df IH]; [cbn; lia|].
    cbn [flat_map length]. rewrite length_app.
    destruct (joined_rows_current prev c) as [n Hn].
    apply (f_equal (@length product)) in Hn. rewrite length_map in Hn.
    cbn [length] in Hn. lia.
  - intros Hnd. induction df as [|c df IH]; [reflexivity|].
    cbn [flat_map]. rewrite map_app, IH, (joined_rows_once prev c Hnd).
    reflexivity.
  - intros row Hrow. apply in_flat_map in Hrow. destruct Hrow as (c & _ & Hrow).
    apply joined_rows_origin in Hrow. destruct Hrow as [-> H]. exact H.
Qed.







(* ================================================================== *)
(** * app.py: the dashboard on the baseline it saved                   *)
(* ================================================================== *)












Lemma pages_offered {A : Type} (df : list A) :
  df <> [] -> Pages.page_options (Pages.num_pages (Z.of_nat (length df))) <> [].
Proof.
  intros Hne E.
  destruct (num_pages_bounds (Z.of_nat (length df)) ltac:(lia)) as (_ & _ & _ & Hz).
  unfold Pages.page_options in E. apply (f_equal (@length Z)) in E.
  rewrite length_map, length_seq in E. cbn [length] in E.
  assert (H : Pages.num_pages (Z.of_nat (length df)) = 0%Z).
  { destruct (num_pages_bounds (Z.of_nat (length df)) ltac:(lia)) as (H0 & _). lia. }
  apply Hz in H. destruct df; [congruence|]. cbn [length] in H. lia.
Qed.

Lemma merged_not_empty (df : list product) (b : App.baseline) :
  df <> [] -> App.merged df b <> [].
Proof.
  intros Hne. destruct df as [|c df]; [congruence|].
  unfold App.merged. destruct (App.show_price_changes b); [|discriminate].
  rewrite merge_left_blocks. cbn [flat_map].
  destruct (joined_rows_current (App.prev_prices b) c) as [n Hn].
  destruct (joined_rows (App.prev_prices b) c); discriminate.
Qed.




(* ================================================================== *)
(** * Scraper.py: the title and the SKU of a page                      *)
(* ================================================================== *)
















(* ================================================================== *)
(** * app.py: where drawing the tables raises                          *)
(* ================================================================== *)

Lemma selectbox_offered (options : list Z) (pick : nat) :
  options <> [] ->
  exists page, View.selectbox options pick = Some page /\ In page options.
Proof.
  intros Hne. destruct options as [|first rest]; [congruence|].
  exists (nth pick (first :: rest) first). split; [reflexivity|].
  destruct (Nat.lt_ge_cases pick (length (first :: rest))) as [Hlt|Hge].
  - now apply nth_In.
  - rewrite nth_overflow by exact Hge. now left.
Qed.

(** X19.  With a current snapshot that is not empty, the script always has a
    page of price changes to draw; it raises at the table of new products
    exactly when there is no new product, after the price changes have been
    drawn, and draws both tables otherwise, each at a page that was on
    offer. *)
Theorem draw_raises_without_new_products
    (current_rows : list product) (b : App.baseline) (u : View.picks) :
  current_rows <> [] ->
  exists pg page_changes,
    App.dashboard current_rows b = Some pg /\
    In page_changes
       (Pages.pages_changes (App.merged (map App.prepare current_rows) b)) /\
    (App.new_products pg = [] ->
     View.draw current_rows b u
     = Some (View.Raised_at_new_products
               (Pages.paginate (App.filtered_changes pg) page_changes))) /\
    (App.new_products pg <> [] ->
     exists page_new,
       In page_new (Pages.pages_new (App.new_products pg)) /\
       View.draw current_rows b u
       = Some (View.Drawn
                 (Pages.paginate (App.filtered_changes pg) page_changes)
                 (Pages.paginate (App.new_products pg) page_new))).
Proof.
  intros Hne. destruct current_rows as [|c0 cs]; [congruence|].
  set (current_rows := c0 :: cs) in *.
  destruct (App.dashboard current_rows b) as [pg|] eqn:Hd; [|discriminate].
  assert (Hm : App.merged (map App.prepare current_rows) b <> []).
  { apply merged_not_empty. discriminate. }
  destruct (selectbox_offered
              (Pages.pages_changes (App.merged (map App.prepare current_rows) b))
              (View.pick_changes u) (pages_offered _ Hm))
    as (page_changes & Hsel & Hin).
  exists pg, page_changes. split; [reflexivity|]. split; [exact Hin|].
  unfold View.draw. rewrite Hd, Hsel. split.
  - intros ->. reflexivity.
  - intros Hnew.
    destruct (selectbox_offered (Pages.pages_new (App.new_products pg))
                (View.pick_new u) (pages_offered _ Hnew))
      as (page_new & Hsel' & Hin').
    exists page_new. split; [exact Hin'|]. now rewrite Hsel'.
Qed.

Lemma draw_raises_without_new_products_witness :
  let row := row_of (py "/p1") (py "$8.00") (py "$10.00") in
  let b := {| App.has_link := true; App.has_title := true;
              App.rows := [row] |} in
  let u := {| View.pick_changes := 0; View.pick_new := 0 |} in
  [row] <> [] /\
  exists pg page_changes,
    App.dashboard [row] b = Some pg /\
    (App.new_products pg = [] ->
     View.draw [row] b u
     = Some (View.Raised_at_new_products
               (Pages.paginate (App.filtered_changes pg) page_changes))).
Proof.
  cbv zeta.
  assert (Hne : [row_of (py "/p1") (py "$8.00") (py "$10.00")] <> [])
    by discriminate.
  split; [exact Hne|].
  destruct (draw_raises_without_new_products
              [row_of (py "/p1") (py "$8.00") (py "$10.00")]
              {| App.has_link := true; App.has_title := true;
                 App.rows := [row_of (py "/p1") (py "$8.00") (py "$10.00")] |}
              {| View.pick_changes := 0; View.pick_new := 0 |} Hne)
    as (pg & page_changes & Hd & _ & Hraise & _).
  exists pg, page_changes. split; [exact Hd|exact Hraise].
Defined.
